(** * Task state synchronisation and reorder engine of todo-gopher-delight

    A shallow embedding of [src/components/DraggableTodoItem.tsx] (the card
    component [DraggableTodoItem] and the page component [Index] that owns
    the task list), followed by the properties of the engine.

    - JavaScript strings are sequences of UTF-16 code units.
    - The React state of [Index] ([todos], [newTodo], [creating]) is a record
      that every handler passes along explicitly.
    - Each [async] handler is cut at its single [await fetch(...)]: the part
      before it runs when the handler is called and records the request, the
      part after it ([..._resume]) runs when the response arrives.  Other
      handlers may run in between, which is how the event loop interleaves
      them; [setTodos(prev => ...)] reads the list as it is at that moment.
    - The list is taken as already loaded: [fetchTodos], called once when
      the page is mounted, replaces it wholesale and is not one of the
      operations on tasks. *)

From Stdlib Require Import String Ascii.
From Stdlib Require Import List ZArith NArith Bool Lia Permutation.
Import ListNotations.

Set Implicit Arguments.

(** ** Strings *)

Definition CodeUnit := N.
Definition JSString := list CodeUnit.

(** A string literal of the source, for sources written in ASCII. *)
Definition js (s : string) : JSString :=
  map N_of_ascii (list_ascii_of_string s).

(** [a === b] on strings. *)
Fixpoint str_eqb (a b : JSString) : bool :=
  match a, b with
  | [], [] => true
  | x :: a', y :: b' => N.eqb x y && str_eqb a' b'
  | _, _ => false
  end.

(** ECMAScript WhiteSpace and LineTerminator code points, the characters that
    [String.prototype.trim] strips: TAB, LF, VT, FF, CR, SP, NBSP, U+1680,
    U+2000..U+200A, U+2028, U+2029, U+202F, U+205F, U+3000 and U+FEFF. *)
Definition isWhiteSpace (c : CodeUnit) : bool :=
  (existsb (N.eqb c)
     [9; 10; 11; 12; 13; 32; 160; 5760; 8232; 8233; 8239; 8287; 12288; 65279]
   || (N.leb 8192 c && N.leb c 8202))%N.

Fixpoint trimStart (s : JSString) : JSString :=
  match s with
  | c :: s' => if isWhiteSpace c then trimStart s' else s
  | [] => []
  end.

Definition trimEnd (s : JSString) : JSString := rev (trimStart (rev s)).

Definition trim (s : JSString) : JSString := trimEnd (trimStart s).

(** Truthiness of a string: only the empty string is falsy. *)
Definition truthy (s : JSString) : bool :=
  match s with [] => false | _ :: _ => true end.

(** ** Data model *)

Record Todo := mkTodo {
  id : JSString;
  body : JSString;
  completed : bool
}.

(** [{ ...todo, completed: true }] and [{ ...todo, body: newBody }]. *)
Definition with_completed (todo : Todo) (c : bool) : Todo :=
  mkTodo (id todo) (body todo) c.
Definition with_body (todo : Todo) (newBody : JSString) : Todo :=
  mkTodo (id todo) newBody (completed todo).

(** The argument object of [toast(...)]; [variant] is absent on the success
    notifications. *)
Record Toast := mkToast {
  title : JSString;
  description : JSString;
  variant : option JSString
}.

(** A call of [fetch], by HTTP method, with what it sends. *)
Inductive Request :=
| POST (body_ : JSString) (completed_ : bool)   (* POST  /todos      *)
| PATCH (id_ : JSString)                         (* PATCH /todos/:id  *)
| DELETE (id_ : JSString)                        (* DELETE /todos/:id *)
| PUT (id_ : JSString) (body_ : JSString).       (* PUT   /todos/:id  *)

(** What an awaited [fetch] gives back: a response with [response.ok] and its
    JSON payload (read by [createTodo] only), a response that is not ok, or a
    rejected promise (also standing for a rejected [response.json()]). *)
Inductive Response :=
| RespOk (payload : Todo)
| RespNotOk
| Rejected (message : JSString).

(** The handler suspended at its [await], with the variables it closes over. *)
Inductive Pending :=
| AwaitCreate
| AwaitToggle (id_ : JSString)
| AwaitDelete (id_ : JSString)
| AwaitEdit (id_ : JSString) (newBody : JSString).

(** [console.error(label, error)], the error given by its message. *)
Definition ConsoleEntry := (JSString * JSString)%type.

Record State := mkState {
  todos : list Todo;            (* useState<Todo[]>([])              *)
  newTodo : JSString;           (* useState("")                      *)
  creating : bool;              (* useState(false)                   *)
  requests : list Request;      (* every fetch issued, oldest first  *)
  inflight : list Pending;      (* awaits not yet resumed            *)
  toasts : list Toast;          (* every toast fired, oldest first   *)
  console : list ConsoleEntry   (* every console.error, oldest first *)
}.

Definition setTodos (f : list Todo -> list Todo) (st : State) : State :=
  mkState (f (todos st)) (newTodo st) (creating st) (requests st)
          (inflight st) (toasts st) (console st).

Definition setNewTodo (s : JSString) (st : State) : State :=
  mkState (todos st) s (creating st) (requests st)
          (inflight st) (toasts st) (console st).

Definition setCreating (b : bool) (st : State) : State :=
  mkState (todos st) (newTodo st) b (requests st)
          (inflight st) (toasts st) (console st).

(** [await fetch(req)]: the request leaves and the handler is suspended. *)
Definition fetch (req : Request) (k : Pending) (st : State) : State :=
  mkState (todos st) (newTodo st) (creating st) (requests st ++ [req])
          (inflight st ++ [k]) (toasts st) (console st).

Definition toast (t : Toast) (st : State) : State :=
  mkState (todos st) (newTodo st) (creating st) (requests st)
          (inflight st) (toasts st ++ [t]) (console st).

Definition console_error (label err : JSString) (st : State) : State :=
  mkState (todos st) (newTodo st) (creating st) (requests st)
          (inflight st) (toasts st) (console st ++ [(label, err)]).

Declare Scope engine_scope.
Delimit Scope engine_scope with engine.
Notation "st |> f" := (f st) (at level 55, left associativity, only parsing)
  : engine_scope.
Open Scope engine_scope.

Definition success (descr : string) : Toast :=
  mkToast (js "Success") (js descr) None.
Definition failure (descr : string) : Toast :=
  mkToast (js "Error") (js descr) (Some (js "destructive")).

(** The error that reaches a [catch]: the one thrown on a response that is
    not ok, or the one the rejected promise carries. *)
Definition caught (thrown : string) (resp : Response) : JSString :=
  match resp with
  | Rejected message => message
  | _ => js thrown
  end.

(** ** [Index]: the handlers of the page *)

(** [createTodo], up to its [await] ([e.preventDefault()] has no part in the
    state). *)
Definition createTodo (st : State) : State :=
  if negb (truthy (trim (newTodo st))) then st
  else st |> setCreating true
          |> fetch (POST (trim (newTodo st)) false) AwaitCreate.

Definition createTodo_resume (resp : Response) (st : State) : State :=
  match resp with
  | RespOk createdTodo =>
      st |> setTodos (fun prev => createdTodo :: prev)
         |> setNewTodo (js "")
         |> toast (success "Todo created successfully!")
         |> setCreating false
  | _ =>
      st |> console_error (js "Error creating todo:")
                          (caught "Failed to create todo" resp)
         |> toast (failure "Failed to create todo")
         |> setCreating false
  end.

(** [toggleTodo], up to its [await]. *)
Definition toggleTodo (id_ : JSString) (completed_ : bool) (st : State) : State :=
  if completed_ then st
  else st |> fetch (PATCH id_) (AwaitToggle id_).

Definition toggleTodo_resume (id_ : JSString) (resp : Response) (st : State)
  : State :=
  match resp with
  | RespOk _ =>
      st |> setTodos (map (fun todo =>
              if str_eqb (id todo) id_ then with_completed todo true else todo))
         |> toast (success "Todo marked as completed!")
  | _ =>
      st |> console_error (js "Error updating todo:")
                          (caught "Failed to update todo" resp)
         |> toast (failure "Failed to update todo")
  end.

(** [deleteTodo], up to its [await]. *)
Definition deleteTodo (id_ : JSString) (st : State) : State :=
  st |> fetch (DELETE id_) (AwaitDelete id_).

Definition deleteTodo_resume (id_ : JSString) (resp : Response) (st : State)
  : State :=
  match resp with
  | RespOk _ =>
      st |> setTodos (filter (fun todo => negb (str_eqb (id todo) id_)))
         |> toast (success "Todo deleted successfully!")
  | _ =>
      st |> console_error (js "Error deleting todo:")
                          (caught "Failed to delete todo" resp)
         |> toast (failure "Failed to delete todo")
  end.

(** [editTodo], up to its [await]. *)
Definition editTodo (id_ newBody : JSString) (st : State) : State :=
  st |> fetch (PUT id_ newBody) (AwaitEdit id_ newBody).

Definition editTodo_resume (id_ newBody : JSString) (resp : Response)
  (st : State) : State :=
  match resp with
  | RespOk _ =>
      st |> setTodos (map (fun todo =>
              if str_eqb (id todo) id_ then with_body todo newBody else todo))
         |> toast (success "Todo updated successfully!")
  | _ =>
      st |> console_error (js "Error updating todo:")
                          (caught "Failed to update todo" resp)
         |> toast (failure "Failed to update todo")
  end.

(** ** Arrays *)

Section Arrays.
Variable T : Type.

(** [array.findIndex(p)]: the first index whose element satisfies [p],
    counting from [k]; [-1] when there is none. *)
Fixpoint findIndex_from (p : T -> bool) (array : list T) (k : Z) : Z :=
  match array with
  | [] => (-1)%Z
  | x :: rest => if p x then k else findIndex_from p rest (k + 1)%Z
  end.

Definition findIndex (p : T -> bool) (array : list T) : Z :=
  findIndex_from p array 0%Z.

(** [array.splice(start, deleteCount, ...items)] of ECMAScript: a negative
    [start] counts from the end, both numbers are clamped to the array.
    Gives the removed elements and the array as it is afterwards. *)
Definition splice (array : list T) (start deleteCount : Z) (items : list T)
  : list T * list T :=
  let len := Z.of_nat (length array) in
  let actualStart :=
    if (start <? 0)%Z then Z.max (len + start) 0 else Z.min start len in
  let actualDeleteCount :=
    Z.min (Z.max deleteCount 0) (len - actualStart) in
  (firstn (Z.to_nat actualDeleteCount) (skipn (Z.to_nat actualStart) array),
   firstn (Z.to_nat actualStart) array ++ items
     ++ skipn (Z.to_nat (actualStart + actualDeleteCount)) array).

(** Modelled from the spec: [arrayMove] is imported from [@dnd-kit/sortable]
    and is not among the sources; section 4.4 describes it as removing the
    element at the source index and reinserting it at the target index.
    The definition is the library's,
<<
    const newArray = array.slice();
    newArray.splice(to < 0 ? newArray.length + to : to, 0,
                    newArray.splice(from, 1)[0]);
    return newArray;
>>
    which is that move on indices of the array and, through [splice], also
    fixes what happens at the [-1] that [findIndex] gives for an absent id.
    The first argument of the outer [splice] is evaluated before the inner
    [splice] shortens the array.  When the inner [splice] removes nothing
    its [[0]] is [undefined], and the result is no array of [T] any more:
    [None]. *)
Definition arrayMove (array : list T) (from to : Z) : option (list T) :=
  let newArray := array in
  let start :=
    if (to <? 0)%Z then (Z.of_nat (length newArray) + to)%Z else to in
  let '(removed, newArray) := splice newArray from 1 [] in
  match removed with
  | item :: _ => Some (snd (splice newArray start 0 [item]))
  | [] => None
  end.
End Arrays.

(** ** [Index]: reordering *)

Record DragEndEvent := mkDragEnd {
  active : JSString;           (* event.active.id                  *)
  over : option JSString       (* event.over?.id, [None] for null  *)
}.

(** The updater that [handleDragEnd] passes to [setTodos]. *)
Definition reorder (activeId overId : JSString) (items : list Todo)
  : option (list Todo) :=
  let oldIndex := findIndex (fun item => str_eqb (id item) activeId) items in
  let newIndex := findIndex (fun item => str_eqb (id item) overId) items in
  arrayMove items oldIndex newIndex.

Definition handleDragEnd (event : DragEndEvent) (st : State) : option State :=
  match over event with
  | Some overId =>
      if negb (str_eqb (active event) overId) then
        match reorder (active event) overId (todos st) with
        | Some items => Some (st |> setTodos (fun _ => items))
        | None => None
        end
      else Some st
  | None => Some st
  end.

(** ** [DraggableTodoItem]: the card of one task *)

Record ItemState := mkItem {
  isEditing : bool;            (* useState(false)     *)
  editValue : JSString         (* useState(todo.body) *)
}.

Section Card.
(** The props of the card. *)
Variable todo : Todo.
Variable onToggle : JSString -> bool -> State -> State.
Variable onDelete : JSString -> State -> State.
Variable onEdit : JSString -> JSString -> State -> State.

Definition handleEdit (item : ItemState) : ItemState :=
  if completed todo then item
  else mkItem true (body todo).

Definition handleSaveEdit (item : ItemState) (st : State)
  : ItemState * State :=
  let st' :=
    if truthy (trim (editValue item))
       && negb (str_eqb (trim (editValue item)) (body todo))
    then onEdit (id todo) (trim (editValue item)) st
    else st in
  (mkItem false (body todo), st').

Definition handleCancelEdit (item : ItemState) : ItemState :=
  mkItem false (body todo).

(** [handleKeyDown]: Enter saves, Escape cancels, other keys do nothing. *)
Definition handleKeyDown (key : JSString) (item : ItemState) (st : State)
  : ItemState * State :=
  if str_eqb key (js "Enter") then handleSaveEdit item st
  else if str_eqb key (js "Escape") then (handleCancelEdit item, st)
  else (item, st).

(** The round button: [disabled={todo.completed}], and
    [onClick={() => onToggle(todo.id, todo.completed)}]. *)
Definition clickToggle (st : State) : State :=
  if completed todo then st
  else onToggle (id todo) (completed todo) st.

(** The bin button: [onClick={() => onDelete(todo.id)}]. *)
Definition clickDelete (st : State) : State :=
  onDelete (id todo) st.
End Card.

(** ** The engine as a transition system *)

(** What can happen to the page: the user acts, or the response to the
    [n]-th suspended handler arrives. *)
Inductive Event :=
| Type_ (text : JSString)                          (* onChange of the input *)
| Submit                                           (* createTodo            *)
| Toggle (id_ : JSString) (completed_ : bool)      (* toggleTodo            *)
| Delete (id_ : JSString)                          (* deleteTodo            *)
| Edit (id_ : JSString) (newBody : JSString)       (* editTodo              *)
| DragEnd (event : DragEndEvent)                   (* handleDragEnd         *)
| Arrive (n : nat) (resp : Response).

(** The rest of a suspended handler, run on its response. *)
Definition resume (k : Pending) (resp : Response) (st : State) : State :=
  match k with
  | AwaitCreate => createTodo_resume resp st
  | AwaitToggle id_ => toggleTodo_resume id_ resp st
  | AwaitDelete id_ => deleteTodo_resume id_ resp st
  | AwaitEdit id_ newBody => editTodo_resume id_ newBody resp st
  end.

Definition settle (n : nat) (st : State) : State :=
  mkState (todos st) (newTodo st) (creating st) (requests st)
          (firstn n (inflight st) ++ skipn (S n) (inflight st))
          (toasts st) (console st).

(** [None]: the event cannot be taken in this state (no such suspended
    handler, or a reorder that would leave [todos] no array of tasks). *)
Definition step (ev : Event) (st : State) : option State :=
  match ev with
  | Type_ text => Some (setNewTodo text st)
  | Submit => Some (createTodo st)
  | Toggle id_ completed_ => Some (toggleTodo id_ completed_ st)
  | Delete id_ => Some (deleteTodo id_ st)
  | Edit id_ newBody => Some (editTodo id_ newBody st)
  | DragEnd event => handleDragEnd event st
  | Arrive n resp =>
      match nth_error (inflight st) n with
      | Some k => Some (resume k resp (settle n st))
      | None => None
      end
  end.

Fixpoint run (evs : list Event) (st : State) : option State :=
  match evs with
  | [] => Some st
  | ev :: rest =>
      match step ev st with
      | Some st' => run rest st'
      | None => None
      end
  end.

(** The task that a successful create response brings into the list. *)
Definition created (ev : Event) (st : State) : list Todo :=
  match ev with
  | Arrive n (RespOk payload) =>
      match nth_error (inflight st) n with
      | Some AwaitCreate => [payload]
      | _ => []
      end
  | _ => []
  end.

(** ** Sample data *)

Definition milk : Todo := mkTodo (js "1") (js "buy milk") false.
Definition eggs : Todo := mkTodo (js "2") (js "buy eggs") false.
Definition rent : Todo := mkTodo (js "3") (js "pay rent") true.
Definition call : Todo := mkTodo (js "4") (js "call home") false.
Definition walk : Todo := mkTodo (js "5") (js "walk dog") false.

Definition loaded (items : list Todo) : State :=
  mkState items (js "") false [] [] [] [].

(** ** Vocabulary of the properties *)

(** [requestReorder(sourceId, targetId)]: a drag of the card [sourceId]
    released over the card [targetId]. *)
Definition requestReorder (sourceId targetId : JSString) (st : State)
  : option State :=
  handleDragEnd (mkDragEnd sourceId (Some targetId)) st.

(** [response.ok] of a response that did arrive. *)
Definition ok (resp : Response) : bool :=
  match resp with RespOk _ => true | _ => false end.

(** The id that a suspended mutation is about; creation has none. *)
Definition target (k : Pending) : option JSString :=
  match k with
  | AwaitCreate => None
  | AwaitToggle id_ | AwaitDelete id_ | AwaitEdit id_ _ => Some id_
  end.

Definition ids (items : list Todo) : list JSString := map id items.

(** The tasks with the given id, and all the others, in list order. *)
Definition having (id_ : JSString) (items : list Todo) : list Todo :=
  filter (fun todo => str_eqb (id todo) id_) items.
Definition others (id_ : JSString) (items : list Todo) : list Todo :=
  filter (fun todo => negb (str_eqb (id todo) id_)) items.

(** The list without its element at index [i], and with [x] put at index
    [j]: the two halves of a move told in the words of section 4.4. *)
Definition removeAt {T} (i : nat) (l : list T) : list T :=
  firstn i l ++ skipn (S i) l.
Definition insertAt {T} (j : nat) (x : T) (l : list T) : list T :=
  firstn j l ++ x :: skipn j l.

(** The index next to [i] on the side of [j]. *)
Definition towards (i j : nat) : nat :=
  if i <? j then S i else if j <? i then pred i else i.

(** A task may be rewritten as long as it keeps its id and does not lose
    its completion. *)
Definition keeps_completed (f : Todo -> Todo) : Prop :=
  forall todo,
    id (f todo) = id todo /\
    (completed todo = true -> completed (f todo) = true).

(** [after] consists of the tasks [born] and of some of the tasks of
    [before], each one rewritten by a function that keeps completion. *)
Definition evolves (born before after : list Todo) : Prop :=
  exists (f : Todo -> Todo) (kept gone : list Todo),
    keeps_completed f /\
    Permutation before (kept ++ gone) /\
    Permutation after (born ++ map f kept).

(** The kinds of mutation that an error notification could name. *)
Inductive MutationKind := KCreate | KToggle | KEdit | KDelete.

(** The tasks that the responses of a run can bring into the list. *)
Fixpoint payloads (evs : list Event) : list Todo :=
  match evs with
  | Arrive _ (RespOk payload) :: rest => payload :: payloads rest
  | _ :: rest => payloads rest
  | [] => []
  end.

(** What the rest of a suspended handler does to a task list. *)
Definition effect (k : Pending) (resp : Response) (items : list Todo)
  : list Todo :=
  todos (resume k resp (loaded items)).

(** The state once [req] has left and nothing more has happened. *)
Definition sent (req : Request) (st : State) : State :=
  mkState (todos st) (newTodo st) (creating st) (requests st ++ [req])
          (inflight st) (toasts st) (console st).

(** ** [Index]: what the page shows and offers *)

(** [completedCount] and [totalCount] of the header. *)
Definition completedCount (st : State) : nat :=
  length (filter (fun todo => completed todo) (todos st)).
Definition totalCount (st : State) : nat := length (todos st).

(** Whether the event is the successful answer to a [deleteTodo]. *)
Definition answers_delete (ev : Event) (st : State) : bool :=
  match ev with
  | Arrive n (RespOk _) =>
      match nth_error (inflight st) n with
      | Some (AwaitDelete _) => true
      | _ => false
      end
  | _ => false
  end.

(** [disabled={!newTodo.trim() || creating}] of the submit button.  A form
    whose submit button is disabled is not submitted, by a click or by Enter
    in its input. *)
Definition submitDisabled (st : State) : bool :=
  negb (truthy (trim (newTodo st))) || creating st.

(** What the form lets through: no typing while [<Input disabled={creating}>]
    and no submit while the button is disabled.  The other events are
    taken as they come. *)
Definition offered (ev : Event) (st : State) : bool :=
  match ev with
  | Type_ _ => negb (creating st)
  | Submit => negb (submitDisabled st)
  | _ => true
  end.

Definition ui_step (ev : Event) (st : State) : option State :=
  if offered ev st then step ev st else None.

Fixpoint ui_run (evs : list Event) (st : State) : option State :=
  match evs with
  | [] => Some st
  | ev :: rest =>
      match ui_step ev st with
      | Some st' => ui_run rest st'
      | None => None
      end
  end.

Definition is_create (k : Pending) : bool :=
  match k with AwaitCreate => true | _ => false end.

(** How many [createTodo] calls wait for their answer. *)
Definition creates_inflight (st : State) : nat :=
  length (filter is_create (inflight st)).

(** ** [Index]: loading the list and the keyboard shortcuts *)

(** What the awaited [fetch] of [fetchTodos] gives back; [data] is [None]
    when the JSON payload is [null]. *)
Inductive ListResponse :=
| ListOk (data : option (list Todo))
| ListNotOk
| ListRejected (message : JSString).

(** Calls that leave the component: the GET of [fetchTodos],
    [e.preventDefault()], [focus()] on the input of the form, and
    [toggleTheme()] of the theme context. *)
Inductive ShellEffect := GetTodos | PreventDefault | FocusNewTodo | ToggleTheme.

Record Page := mkPage {
  engine : State;
  loading : bool;               (* useState(true)   *)
  showShortcuts : bool;         (* useState(false)  *)
  shell : list ShellEffect      (* oldest first     *)
}.

(** The page as [useState] sets it up. *)
Definition mounted : Page :=
  mkPage (mkState [] (js "") false [] [] [] []) true false [].

(** [fetchTodos], up to its [await]. *)
Definition fetchTodos (pg : Page) : Page :=
  mkPage (engine pg) (loading pg) (showShortcuts pg) (shell pg ++ [GetTodos]).

Definition fetchTodos_resume (resp : ListResponse) (pg : Page) : Page :=
  match resp with
  | ListOk data =>
      mkPage (engine pg
                |> setTodos (fun _ => match data with
                                      | Some items => items
                                      | None => []
                                      end))
             false (showShortcuts pg) (shell pg)
  | _ =>
      mkPage (engine pg
                |> console_error (js "Error fetching todos:")
                     match resp with
                     | ListRejected message => message
                     | _ => js "Failed to fetch todos"
                     end
                |> toast (failure
     "Failed to load todos. Please check if your backend is running."))
             false (showShortcuts pg) (shell pg)
  end.





(** ** Vocabulary for strings *)

(** Made of white space only, the empty string included. *)
Definition blank (s : JSString) : Prop := forallb isWhiteSpace s = true.

(** Not led by a white-space character. *)
Definition tight (s : JSString) : Prop :=
  match s with c :: _ => isWhiteSpace c = false | [] => True end.

(** ** Strings and records: basic facts *)

Unset Implicit Arguments.

Lemma str_eqb_eq (a b : JSString) : str_eqb a b = true <-> a = b.
Proof.
  revert b; induction a as [|x a IH]; intros [|y b]; simpl;
    try (split; [discriminate | congruence]); try tauto.
  rewrite andb_true_iff, N.eqb_eq, IH.
  split; [intros [-> ->]; reflexivity | intros E; inversion E; auto].
Qed.

Lemma str_eqb_refl (a : JSString) : str_eqb a a = true.
Proof. apply str_eqb_eq; reflexivity. Qed.

Lemma str_eqb_neq (a b : JSString) : str_eqb a b = false <-> a <> b.
Proof.
  rewrite <- (str_eqb_eq a b).
  destruct (str_eqb a b); split; congruence.
Qed.

Lemma truthy_false (s : JSString) : truthy s = false <-> s = [].
Proof. destruct s; simpl; split; congruence. Qed.

(** The response to the handler suspended last: that handler goes on, in a
    state where its request is on record. *)
Lemma arrive_after_fetch (req : Request) (k : Pending) (resp : Response)
  (st : State) :
  step (Arrive (length (inflight st)) resp) (fetch req k st) =
  Some (resume k resp (sent req st)).
Proof.
  unfold step, settle, sent, fetch;
    cbn [inflight todos newTodo creating requests toasts console].
  rewrite nth_error_app2, Nat.sub_diag by lia; cbn [nth_error].
  do 2 f_equal.
  rewrite skipn_all2 by (rewrite length_app; simpl; lia).
  rewrite firstn_app, Nat.sub_diag, firstn_all.
  now rewrite firstn_O, !app_nil_r.
Qed.

(** ** Creation *)

(** C7. [createTodo] with a draft that is empty once trimmed returns at its
    guard: the whole state is as before, so the task list is not touched, no
    request is sent and no handler is left suspended. *)
Theorem createTodo_rejects_blank (st : State) :
  trim (newTodo st) = [] ->
  createTodo st = st /\ step Submit st = Some st.
Proof.
  intros Hblank; unfold step, createTodo.
  rewrite Hblank; simpl; auto.
Qed.

Lemma createTodo_rejects_blank_witness :
  let st := setNewTodo (js "   ") (loaded [milk]) in
  trim (newTodo st) = [] /\ createTodo st = st /\ step Submit st = Some st.
Proof.
  split; [reflexivity | apply createTodo_rejects_blank; reflexivity].
Defined.

(** A draft with text does leave: the guard is not the whole handler. *)
Lemma createTodo_sends (st : State) :
  trim (newTodo st) <> [] ->
  requests (createTodo st) = requests st ++ [POST (trim (newTodo st)) false] /\
  todos (createTodo st) = todos st.
Proof.
  intros Htext; unfold createTodo.
  destruct (trim (newTodo st)) eqn:E; [congruence | simpl; auto].
Qed.

(** ** Editing *)

Lemma in_map_rewrite (p : Todo -> bool) (g : Todo -> Todo) (items : list Todo)
  (todo : Todo) :
  In todo items -> p todo = true ->
  In (g todo) (map (fun t => if p t then g t else t) items).
Proof.
  intros Hin Hp; apply in_map_iff; exists todo.
  rewrite Hp; auto.
Qed.

(** C10. [editTodo] checks nothing: whatever [newBody] is, the PUT request
    with exactly that body leaves and the handler waits for the answer; on a
    successful answer every stored task with that id gets [newBody] as it
    was passed, and the other tasks stay as they are.  With the empty string
    this leaves a stored task whose body is empty. *)
Theorem editTodo_no_validation (id_ newBody : JSString) (st : State) :
  let pending := editTodo id_ newBody st in
  requests pending = requests st ++ [PUT id_ newBody] /\
  inflight pending = inflight st ++ [AwaitEdit id_ newBody] /\
  (forall payload, exists st',
      step (Arrive (length (inflight st)) (RespOk payload)) pending = Some st' /\
      todos st' =
        map (fun todo =>
               if str_eqb (id todo) id_ then with_body todo newBody else todo)
            (todos st) /\
      (forall todo, In todo (todos st) -> id todo = id_ ->
         In (mkTodo id_ newBody (completed todo)) (todos st'))) /\
  run [Edit (js "1") (js ""); Arrive 0 (RespOk milk)] (loaded [milk; eggs]) =
    Some (mkState [mkTodo (js "1") [] false; eggs] [] false
                  [PUT (js "1") []] []
                  [success "Todo updated successfully!"] []).
Proof.
  cbn zeta; repeat split.
  intros payload; eexists; split; [apply arrive_after_fetch|].
  split; [reflexivity|].
  intros todo Hin <-.
  apply (in_map_rewrite (fun t => str_eqb (id t) (id todo))
           (fun t => with_body t newBody)); auto using str_eqb_refl.
Qed.

Lemma editTodo_no_validation_witness :
  exists st',
    step (Arrive 0 (RespOk milk)) (editTodo (js "1") [] (loaded [milk; eggs]))
      = Some st' /\
    In (mkTodo (js "1") [] false) (todos st').
Proof.
  destruct (editTodo_no_validation (js "1") [] (loaded [milk; eggs]))
    as (_ & _ & Hok & _).
  destruct (Hok milk) as (st' & Hstep & _ & Hin).
  exists st'; split; [exact Hstep|].
  apply (Hin milk); [left|]; reflexivity.
Defined.

(** The same through the card: a draft of blanks is dropped there, while
    [editTodo] called with it stores it. *)
Lemma handleSaveEdit_guards_blank :
  snd (handleSaveEdit milk editTodo (mkItem true (js "   ")) (loaded [milk]))
    = loaded [milk] /\
  requests (editTodo (js "1") (js "   ") (loaded [milk]))
    = [PUT (js "1") (js "   ")].
Proof. split; reflexivity. Qed.

(** C8. Saving an inline edit trims the draft and calls [onEdit] with the
    trimmed text exactly when that text is non-empty and differs from the
    body of the task; with [editTodo] as [onEdit] this is one PUT request
    and no change of the task list.  Otherwise the state of the page is
    untouched.  In both cases the card leaves edit mode and its draft is
    reset to the body of the task. *)
Theorem handleSaveEdit_commit (todo : Todo) (item : ItemState) (st : State) :
  let draft := trim (editValue item) in
  let item' := fst (handleSaveEdit todo editTodo item st) in
  let st' := snd (handleSaveEdit todo editTodo item st) in
  isEditing item' = false /\
  editValue item' = body todo /\
  todos st' = todos st /\
  (draft <> [] /\ draft <> body todo ->
     st' = editTodo (id todo) draft st /\
     requests st' = requests st ++ [PUT (id todo) draft]) /\
  (draft = [] \/ draft = body todo -> st' = st) /\
  (forall onEdit,
     snd (handleSaveEdit todo onEdit item st) <> st ->
     draft <> [] /\ draft <> body todo /\
     snd (handleSaveEdit todo onEdit item st) = onEdit (id todo) draft st).
Proof.
  cbn zeta; unfold handleSaveEdit; cbn [fst snd isEditing editValue].
  set (draft := trim (editValue item)).
  assert (Ht : truthy draft = false <-> draft = []) by apply truthy_false.
  assert (Hb := str_eqb_eq draft (body todo)).
  destruct (truthy draft); destruct (str_eqb draft (body todo));
    cbn [andb negb].
  - (* the draft is the body *)
    repeat apply conj; auto.
    + intros [_ Hne]; exfalso; apply Hne, Hb; reflexivity.
    + intros onEdit Hne; congruence.
  - (* a new text *)
    assert (draft <> []) by (intros E; apply Ht in E; discriminate).
    assert (draft <> body todo) by (intros E; apply Hb in E; discriminate).
    repeat apply conj; auto.
    intros [E|E]; contradiction.
  - repeat apply conj; auto.
    + intros [Hne _]; exfalso; apply Hne, Ht; reflexivity.
    + intros onEdit Hne; congruence.
  - repeat apply conj; auto.
    + intros [Hne _]; exfalso; apply Hne, Ht; reflexivity.
    + intros onEdit Hne; congruence.
Qed.

Lemma handleSaveEdit_commit_witness :
  let item := mkItem true (js "  buy bread ") in
  let st' := snd (handleSaveEdit milk editTodo item (loaded [milk])) in
  st' = editTodo (js "1") (js "buy bread") (loaded [milk]) /\
  requests st' = [PUT (js "1") (js "buy bread")].
Proof.
  apply (handleSaveEdit_commit milk (mkItem true (js "  buy bread "))
           (loaded [milk])).
  split; vm_compute; discriminate.
Defined.

(** The claim of a rollback after a failed edit, tried on the text of its
    own example. *)
Lemma edit_failure_example :
  run [Edit (js "1") (js "buy bread"); Arrive 0 RespNotOk] (loaded [milk]) =
  Some (mkState [mkTodo (js "1") (js "buy milk") false] [] false
                [PUT (js "1") (js "buy bread")] []
                [failure "Failed to update todo"]
                [(js "Error updating todo:", js "Failed to update todo")]).
Proof. reflexivity. Qed.

(** C5 as stated fails: the notification of a failed edit is the same
    object whichever task was edited, so nothing read off it can be the id
    of that task. *)
Lemma edit_failure_toast_names_no_task :
  ~ exists tag : Toast -> MutationKind * JSString,
      (forall t,
         toasts (editTodo_resume (js "1") (js "buy bread") RespNotOk
                   (loaded [milk; eggs])) = [t] ->
         tag t = (KEdit, js "1")) /\
      (forall t,
         toasts (editTodo_resume (js "2") (js "buy bread") RespNotOk
                   (loaded [milk; eggs])) = [t] ->
         tag t = (KEdit, js "2")).
Proof.
  intros [tag [H1 H2]].
  specialize (H1 _ eq_refl); specialize (H2 _ eq_refl).
  rewrite H1 in H2; discriminate.
Qed.

(** C5, amended.  [editTodo] changes the task list only after a successful
    answer, so when the answer is a failure the list, and with it the body
    of the task, is what it was before the edit, both while the request is
    out and afterwards.  Exactly one notification is fired: the fixed
    object with title "Error" and description "Failed to update todo",
    which carries neither a mutation kind nor a task id and is also what a
    failed toggle fires. *)
Theorem edit_failure_keeps_body (id_ newBody : JSString) (resp : Response)
  (st : State) :
  ok resp = false ->
  let pending := editTodo id_ newBody st in
  todos pending = todos st /\
  toasts pending = toasts st /\
  exists st',
    step (Arrive (length (inflight st)) resp) pending = Some st' /\
    todos st' = todos st /\
    toasts st' =
      toasts st ++ [mkToast (js "Error") (js "Failed to update todo")
                            (Some (js "destructive"))] /\
    toasts (toggleTodo_resume id_ resp (sent (PATCH id_) st)) = toasts st'.
Proof.
  intros Hfail; cbn zeta; repeat apply conj; try reflexivity.
  eexists; split; [apply arrive_after_fetch|].
  destruct resp; try discriminate; repeat apply conj; reflexivity.
Qed.

Lemma edit_failure_keeps_body_witness :
  let st := loaded [milk] in
  todos (editTodo (js "1") (js "buy bread") st) = [milk] /\
  toasts (editTodo (js "1") (js "buy bread") st) = [] /\
  exists st',
    step (Arrive 0 RespNotOk) (editTodo (js "1") (js "buy bread") st)
      = Some st' /\
    todos st' = [milk] /\
    toasts st' = [mkToast (js "Error") (js "Failed to update todo")
                          (Some (js "destructive"))] /\
    toasts (toggleTodo_resume (js "1") RespNotOk (sent (PATCH (js "1")) st))
      = toasts st'.
Proof.
  exact (edit_failure_keeps_body (js "1") (js "buy bread") RespNotOk
           (loaded [milk]) eq_refl).
Defined.

(** ** Completion *)

Lemma toggleTodo_resume_done (id_ : JSString) (payload : Todo) (st : State)
  (todo : Todo) :
  In todo (todos (toggleTodo_resume id_ (RespOk payload) st)) ->
  id todo = id_ -> completed todo = true.
Proof.
  cbn; intros Hin Hid.
  apply in_map_iff in Hin; destruct Hin as [t [Ht _]].
  destruct (str_eqb (id t) id_) eqn:E; subst todo; [reflexivity|].
  apply str_eqb_neq in E; contradiction.
Qed.

(** C1 as stated fails: with the toggle request of an open task still out,
    the stored task is not completed. *)
Lemma toggle_is_not_optimistic :
  let pending := clickToggle milk toggleTodo (loaded [milk]) in
  inflight pending = [AwaitToggle (js "1")] /\
  ~ (forall todo, In todo (todos pending) -> id todo = js "1" ->
       completed todo = true).
Proof.
  split; [reflexivity|].
  intros H; specialize (H milk (or_introl eq_refl) eq_refl); discriminate.
Qed.

(** C1, amended.  Toggling a stored task that is not completed sends the
    PATCH request and leaves the task list as it is while the request is
    out: [completed] is still false.  When the answer is a failure the list
    is still unchanged and one error notification is fired; when it is a
    success every stored task with that id is completed, and one success
    notification is fired. *)
Theorem toggle_completes_on_success (todo : Todo) (st : State) :
  In todo (todos st) -> completed todo = false ->
  let pending := clickToggle todo toggleTodo st in
  todos pending = todos st /\
  requests pending = requests st ++ [PATCH (id todo)] /\
  inflight pending = inflight st ++ [AwaitToggle (id todo)] /\
  forall resp, exists st',
    step (Arrive (length (inflight st)) resp) pending = Some st' /\
    (ok resp = false ->
       todos st' = todos st /\
       toasts st' = toasts st ++ [failure "Failed to update todo"]) /\
    (ok resp = true ->
       In (mkTodo (id todo) (body todo) true) (todos st') /\
       (forall t, In t (todos st') -> id t = id todo -> completed t = true) /\
       toasts st' = toasts st ++ [success "Todo marked as completed!"]).
Proof.
  intros Hin Hopen; cbn zeta.
  unfold clickToggle, toggleTodo; rewrite Hopen.
  repeat apply conj; try reflexivity.
  intros resp; eexists; split; [apply arrive_after_fetch|].
  cbn [resume]; split; intros Hok.
  - destruct resp; try discriminate; split; reflexivity.
  - destruct resp as [payload| |]; try discriminate.
    repeat apply conj.
    + apply (in_map_rewrite (fun t => str_eqb (id t) (id todo))
               (fun t => with_completed t true));
        auto using str_eqb_refl.
    + intros t; apply toggleTodo_resume_done.
    + reflexivity.
Qed.

Lemma toggle_completes_on_success_witness :
  let pending := clickToggle milk toggleTodo (loaded [milk; eggs]) in
  todos pending = [milk; eggs] /\
  requests pending = [PATCH (js "1")] /\
  inflight pending = [AwaitToggle (js "1")] /\
  forall resp, exists st',
    step (Arrive 0 resp) pending = Some st' /\
    (ok resp = false ->
       todos st' = [milk; eggs] /\
       toasts st' = [failure "Failed to update todo"]) /\
    (ok resp = true ->
       In (mkTodo (js "1") (js "buy milk") true) (todos st') /\
       (forall t, In t (todos st') -> id t = js "1" -> completed t = true) /\
       toasts st' = [success "Todo marked as completed!"]).
Proof.
  apply (toggle_completes_on_success milk (loaded [milk; eggs])).
  - simpl; auto.
  - reflexivity.
Defined.

(** ** Mutations on different tasks *)

Lemma todos_resume (k : Pending) (resp : Response) (st : State) :
  todos (resume k resp st) = effect k resp (todos st).
Proof. destruct k, resp; reflexivity. Qed.

Lemma effect_failed (k : Pending) (resp : Response) (items : list Todo) :
  ok resp = false -> effect k resp items = items.
Proof. destruct k, resp; simpl; intros; try discriminate; reflexivity. Qed.

(** Case analysis on every id comparison in the goal; two comparisons of
    one id that both succeed make the compared ids equal. *)
Ltac by_ids :=
  unfold with_completed, with_body in *; cbn;
  repeat match goal with
         | |- context [str_eqb (id ?t) ?b] =>
             is_var t;
             let E := fresh "E" in destruct (str_eqb (id t) b) eqn:E; cbn in *
         end;
  try congruence;
  repeat match goal with
         | E : str_eqb _ _ = true |- _ => apply str_eqb_eq in E
         end;
  try congruence.

Ltac on_targets k1 k2 H1 H2 :=
  destruct k1, k2; cbn in H1, H2; try discriminate;
  injection H1 as ->; injection H2 as ->.

Lemma effect_others (k : Pending) (id_ : JSString) (resp : Response)
  (items : list Todo) :
  target k = Some id_ ->
  others id_ (effect k resp items) = others id_ items.
Proof.
  intros Hk; destruct k; cbn in Hk; try discriminate;
    injection Hk as ->; destruct resp; try reflexivity;
    unfold effect, others; cbn;
    induction items as [|todo items IH]; cbn; auto; by_ids.
Qed.

Lemma effect_having (k : Pending) (A B : JSString) (resp : Response)
  (items : list Todo) :
  target k = Some A -> A <> B ->
  having B (effect k resp items) = having B items.
Proof.
  intros Hk Hne; destruct k; cbn in Hk; try discriminate;
    injection Hk as ->; destruct resp; try reflexivity;
    unfold effect, having; cbn;
    induction items as [|todo items IH]; cbn; auto; by_ids.
Qed.

Lemma effect_on_having (k : Pending) (id_ : JSString) (resp : Response)
  (items : list Todo) :
  having id_ (effect k resp items) = effect k resp (having id_ items) \/
  k = AwaitCreate.
Proof.
  destruct k; auto; left; destruct resp; try reflexivity;
    unfold effect, having; cbn;
    induction items as [|todo items IH]; cbn; auto; by_ids.
Qed.

Lemma effect_commute (k1 k2 : Pending) (A B : JSString) (r1 r2 : Response)
  (items : list Todo) :
  target k1 = Some A -> target k2 = Some B -> A <> B ->
  effect k1 r1 (effect k2 r2 items) = effect k2 r2 (effect k1 r1 items).
Proof.
  intros H1 H2 Hne; on_targets k1 k2 H1 H2;
    destruct r1, r2; try reflexivity;
    unfold effect; cbn;
    induction items as [|todo items IH]; cbn; auto; by_ids.
Qed.

Lemma effect_ids (k : Pending) (resp : Response) (items : list Todo) :
  match k with
  | AwaitToggle _ | AwaitEdit _ _ => ids (effect k resp items) = ids items
  | AwaitDelete id_ =>
      ok resp = true -> effect k resp items = others id_ items
  | AwaitCreate => True
  end.
Proof.
  destruct k; auto; destruct resp; try reflexivity; try discriminate;
    unfold effect, ids; cbn;
    induction items as [|todo items IH]; cbn; auto; by_ids.
Qed.

(** C6. A mutation of the task [A], whatever its answer, leaves the tasks
    with another id as they are and in their order; a failed one leaves
    the whole list as it is; a successful toggle or edit keeps every id at
    its place and a successful delete drops exactly the tasks with id [A].
    So for two suspended mutations of different tasks [A] and [B] the order
    of their answers does not matter, and what becomes of [B] is the same
    whether or not the mutation of [A] was answered, with success or not. *)
Theorem mutations_on_distinct_ids_independent (k1 k2 : Pending)
  (A B : JSString) (r1 r2 : Response) (st : State) :
  target k1 = Some A -> target k2 = Some B -> A <> B ->
  others A (todos (resume k1 r1 st)) = others A (todos st) /\
  (ok r1 = false -> todos (resume k1 r1 st) = todos st) /\
  match k1 with
  | AwaitDelete _ =>
      ok r1 = true -> todos (resume k1 r1 st) = others A (todos st)
  | _ => ids (todos (resume k1 r1 st)) = ids (todos st)
  end /\
  todos (resume k1 r1 (resume k2 r2 st)) =
    todos (resume k2 r2 (resume k1 r1 st)) /\
  having B (todos (resume k2 r2 (resume k1 r1 st))) =
    having B (todos (resume k2 r2 st)).
Proof.
  intros H1 H2 Hne; rewrite !todos_resume; repeat apply conj.
  - now apply effect_others.
  - apply effect_failed.
  - generalize (effect_ids k1 r1 (todos st)).
    destruct k1; cbn in H1; try discriminate; auto.
    injection H1 as ->; auto.
  - now apply effect_commute with (A := A) (B := B).
  - destruct (effect_on_having k2 B r2 (effect k1 r1 (todos st))) as [-> | ->];
      [|discriminate].
    destruct (effect_on_having k2 B r2 (todos st)) as [-> | ->];
      [|discriminate].
    f_equal; now apply effect_having with (A := A).
Qed.

Lemma mutations_on_distinct_ids_independent_witness :
  let st := loaded [milk; eggs; rent] in
  let k1 := AwaitDelete (js "1") in
  let k2 := AwaitEdit (js "2") (js "new") in
  js "1" <> js "2" /\
  todos (resume k1 RespNotOk (resume k2 (RespOk eggs) st)) =
    todos (resume k2 (RespOk eggs) (resume k1 RespNotOk st)) /\
  having (js "2") (todos (resume k2 (RespOk eggs) (resume k1 RespNotOk st))) =
    having (js "2") (todos (resume k2 (RespOk eggs) st)).
Proof.
  assert (Hne : js "1" <> js "2") by discriminate.
  split; [exact Hne|].
  apply (mutations_on_distinct_ids_independent
           (AwaitDelete (js "1")) (AwaitEdit (js "2") (js "new"))
           (js "1") (js "2") RespNotOk (RespOk eggs)
           (loaded [milk; eggs; rent])
           eq_refl eq_refl Hne).
Defined.

(** ** Arrays: facts *)

Section ArrayFacts.
Variable T : Type.
Implicit Types (l array : list T) (p : T -> bool).

(** [splice] once its two clamped numbers are known. *)
Lemma splice_at array (start deleteCount : Z) (items : list T) (s n : nat) :
  (if (start <? 0)%Z
   then Z.max (Z.of_nat (length array) + start) 0
   else Z.min start (Z.of_nat (length array)))%Z = Z.of_nat s ->
  Z.min (Z.max deleteCount 0) (Z.of_nat (length array) - Z.of_nat s)%Z
    = Z.of_nat n ->
  splice array start deleteCount items =
  (firstn n (skipn s array),
   firstn s array ++ items ++ skipn (s + n) array).
Proof.
  intros Hs Hn; unfold splice; cbv zeta.
  rewrite Hs, Hn, <- Nat2Z.inj_add, !Nat2Z.id; reflexivity.
Qed.

(** The clamped numbers always exist, and stay inside the array. *)
Lemma splice_clamped array (start deleteCount : Z) (items : list T) :
  exists s n,
    s + n <= length array /\
    (Z.of_nat n <= Z.max deleteCount 0)%Z /\
    splice array start deleteCount items =
    (firstn n (skipn s array),
     firstn s array ++ items ++ skipn (s + n) array).
Proof.
  set (len := Z.of_nat (length array)).
  set (a := (if start <? 0 then Z.max (len + start) 0
             else Z.min start len)%Z).
  assert (Ha : (0 <= a <= len)%Z)
    by (subst a len; destruct (start <? 0)%Z eqn:E;
        [apply Z.ltb_lt in E | apply Z.ltb_ge in E]; lia).
  exists (Z.to_nat a),
    (Z.to_nat (Z.min (Z.max deleteCount 0) (len - a)%Z)).
  repeat apply conj; try lia.
  apply splice_at; fold len; fold a; lia.
Qed.

Lemma removeAt_length i l :
  i < length l -> length (removeAt i l) = pred (length l).
Proof.
  intros Hi; unfold removeAt.
  rewrite length_app, length_firstn, length_skipn; lia.
Qed.

Lemma insertAt_length j (x : T) l :
  length (insertAt j x l) = S (length l).
Proof.
  unfold insertAt.
  rewrite length_app; cbn [length].
  rewrite length_firstn, length_skipn; lia.
Qed.

Lemma nth_error_removeAt i l k :
  i < length l ->
  nth_error (removeAt i l) k =
  if k <? i then nth_error l k else nth_error l (S k).
Proof.
  intros Hi; unfold removeAt.
  rewrite nth_error_app, length_firstn, Nat.min_l by lia.
  destruct (Nat.ltb_spec k i).
  - rewrite nth_error_firstn.
    destruct (Nat.ltb_spec k i); [reflexivity | lia].
  - rewrite nth_error_skipn; f_equal; lia.
Qed.

Lemma nth_error_insertAt j (x : T) l k :
  j <= length l ->
  nth_error (insertAt j x l) k =
  if k <? j then nth_error l k
  else if k =? j then Some x else nth_error l (pred k).
Proof.
  intros Hj; unfold insertAt.
  rewrite nth_error_app, length_firstn, Nat.min_l by lia.
  destruct (Nat.ltb_spec k j).
  - rewrite nth_error_firstn.
    destruct (Nat.ltb_spec k j); [reflexivity | lia].
  - destruct (Nat.eqb_spec k j) as [->|Hne].
    + rewrite Nat.sub_diag; reflexivity.
    + destruct (k - j) as [|d] eqn:E; [lia|]; cbn [nth_error].
      rewrite nth_error_skipn; f_equal; lia.
Qed.

(** Comparing two lists index by index, with the case split on the
    indices left to arithmetic. *)
Ltac by_index k :=
  apply nth_error_ext; intros k;
  repeat first
    [ rewrite nth_error_removeAt
        by (rewrite ?insertAt_length, ?removeAt_length; lia)
    | rewrite nth_error_insertAt
        by (rewrite ?insertAt_length, ?removeAt_length; lia) ];
  repeat match goal with
         | |- context [?a <? ?b] => destruct (Nat.ltb_spec a b)
         | |- context [?a =? ?b] => destruct (Nat.eqb_spec a b)
         end;
  try lia; try reflexivity; try (f_equal; lia).

Lemma removeAt_insertAt j (x : T) l :
  j <= length l -> removeAt j (insertAt j x l) = l.
Proof. intros Hj; by_index k. Qed.

Lemma insertAt_removeAt i (x : T) l :
  nth_error l i = Some x -> insertAt i x (removeAt i l) = l.
Proof.
  intros Hx.
  assert (Hi : i < length l) by (apply nth_error_Some; congruence).
  by_index k; subst; auto.
Qed.

Lemma removeAt_perm i (x : T) l :
  nth_error l i = Some x -> Permutation l (x :: removeAt i l).
Proof.
  intros Hx; rewrite <- (firstn_skipn_middle _ _ Hx) at 1.
  symmetry; apply Permutation_middle.
Qed.

Lemma insertAt_perm j (x : T) l : Permutation (x :: l) (insertAt j x l).
Proof.
  unfold insertAt; rewrite <- (firstn_skipn j l) at 1.
  apply Permutation_middle.
Qed.

Lemma filter_removeAt p i (x : T) l :
  nth_error l i = Some x -> p x = false ->
  filter p (removeAt i l) = filter p l.
Proof.
  intros Hx Hp; rewrite <- (firstn_skipn_middle _ _ Hx) at 2.
  unfold removeAt; rewrite !filter_app; cbn [filter]; now rewrite Hp.
Qed.

Lemma filter_insertAt p j (x : T) l :
  p x = false -> filter p (insertAt j x l) = filter p l.
Proof.
  intros Hp; rewrite <- (firstn_skipn j l) at 2.
  unfold insertAt; rewrite !filter_app; cbn [filter]; now rewrite Hp.
Qed.

(** What takes the place of a moved element: its neighbour on the side
    it moved to. *)
Lemma nth_error_moved i j (x : T) l :
  i < length l -> j < length l -> i <> j ->
  nth_error (insertAt j x (removeAt i l)) i = nth_error l (towards i j).
Proof.
  intros Hi Hj Hne; unfold towards.
  rewrite nth_error_insertAt by (rewrite removeAt_length; lia).
  rewrite !nth_error_removeAt by lia.
  repeat match goal with
         | |- context [?a <? ?b] => destruct (Nat.ltb_spec a b)
         | |- context [?a =? ?b] => destruct (Nat.eqb_spec a b)
         end; try lia; try reflexivity; f_equal; lia.
Qed.

(** [arrayMove] between two indices of the array is the move of the
    specification: take the element out, put it in at the target index. *)
Lemma arrayMove_in_range array i j (x : T) :
  nth_error array i = Some x -> j < length array ->
  arrayMove array (Z.of_nat i) (Z.of_nat j) =
  Some (insertAt j x (removeAt i array)).
Proof.
  intros Hx Hj.
  assert (Hi : i < length array) by (apply nth_error_Some; congruence).
  unfold arrayMove.
  destruct (Z.ltb_spec (Z.of_nat j) 0) as [?|_]; [lia|].
  rewrite (@splice_at array (Z.of_nat i) 1 [] i 1)
    by (try destruct (Z.ltb_spec (Z.of_nat i) 0); lia).
  assert (Hr : firstn 1 (skipn i array) = [x]).
  { rewrite <- (firstn_skipn_middle _ _ Hx) at 1.
    rewrite skipn_app, skipn_all2, length_firstn, Nat.min_l
      by (rewrite ?length_firstn; lia).
    rewrite Nat.sub_diag; reflexivity. }
  rewrite Hr; cbn [app].
  replace (i + 1) with (S i) by lia; fold (removeAt i array).
  rewrite (@splice_at (removeAt i array) (Z.of_nat j) 0 [x] j 0)
    by (rewrite removeAt_length by lia;
        try destruct (Z.ltb_spec (Z.of_nat j) 0); lia).
  cbn [snd app]; rewrite Nat.add_0_r; reflexivity.
Qed.

(** Whatever the two numbers are, when [arrayMove] gives an array it
    holds the same elements. *)
Lemma arrayMove_perm array (from to : Z) (result : list T) :
  arrayMove array from to = Some result -> Permutation array result.
Proof.
  unfold arrayMove.
  destruct (splice_clamped array from 1 []) as (s & n & Hsn & Hn & ->).
  set (rest := firstn s array ++ [] ++ skipn (s + n) array).
  set (start := if (to <? 0)%Z then _ else _).
  cbv beta iota.
  destruct (firstn n (skipn s array)) as [|item removed] eqn:Hrem;
    [discriminate|].
  destruct (splice_clamped rest start 0 [item]) as (s' & n' & _ & Hn' & ->).
  intros [= <-]; cbn [snd].
  assert (n' = 0) by lia; subst n'.
  assert (Hone : removed = []).
  { assert (Hlen : length (item :: removed) <= 1)
      by (rewrite <- Hrem, length_firstn; lia).
    destruct removed; [reflexivity | cbn in Hlen; lia]. }
  subst removed; rewrite Nat.add_0_r.
  transitivity (item :: rest); [|apply insertAt_perm].
  rewrite <- (firstn_skipn s array) at 1.
  rewrite <- (firstn_skipn n (skipn s array)) at 1.
  rewrite Hrem, skipn_skipn, (Nat.add_comm n s); subst rest; cbn [app].
  symmetry; apply Permutation_middle.
Qed.

Lemma findIndex_from_first p l k n (x : T) :
  nth_error l n = Some x -> p x = true ->
  (forall m y, m < n -> nth_error l m = Some y -> p y = false) ->
  findIndex_from p l k = (k + Z.of_nat n)%Z.
Proof.
  revert k n; induction l as [|a l IH]; intros k [|n] Hx Hp Hfirst;
    cbn in Hx; try discriminate; cbn [findIndex_from].
  - injection Hx as ->; rewrite Hp; lia.
  - rewrite (Hfirst 0 a) by (cbn; auto; lia).
    rewrite (IH (k + 1)%Z n); auto; [lia|].
    intros m y Hm Hy; apply (Hfirst (S m) y); [lia | exact Hy].
Qed.

Lemma findIndex_from_none p l k :
  (forall x, In x l -> p x = false) -> findIndex_from p l k = (-1)%Z.
Proof.
  revert k; induction l as [|a l IH]; intros k Hnone; cbn; auto.
  rewrite (Hnone a) by (left; auto).
  apply IH; intros x Hx; apply Hnone; right; auto.
Qed.

Lemma first_match p l (x : T) :
  In x l -> p x = true ->
  exists n y,
    nth_error l n = Some y /\ p y = true /\
    forall m z, m < n -> nth_error l m = Some z -> p z = false.
Proof.
  induction l as [|a l IH]; intros Hin Hp; [contradiction|].
  destruct (p a) eqn:Ea.
  - exists 0, a; repeat split; auto; intros; lia.
  - destruct Hin as [->|Hin]; [congruence|].
    destruct (IH Hin Hp) as (n & y & Hy & Hpy & Hfirst).
    exists (S n), y; repeat split; auto.
    intros [|m] z Hm Hz; cbn in Hz; [congruence|].
    apply (Hfirst m); [lia | exact Hz].
Qed.
End ArrayFacts.

(** ** Reordering *)

Lemma findIndex_present (id_ : JSString) (items : list Todo) :
  In id_ (ids items) ->
  exists i todo,
    findIndex (fun item => str_eqb (id item) id_) items = Z.of_nat i /\
    nth_error items i = Some todo /\ id todo = id_.
Proof.
  intros Hin; apply in_map_iff in Hin; destruct Hin as (x & Hx & Hin).
  destruct (first_match _ (fun item => str_eqb (id item) id_) items x Hin)
    as (n & y & Hy & Hpy & Hfirst);
    [apply str_eqb_eq; exact Hx|].
  exists n, y; repeat split; auto; [|apply str_eqb_eq; exact Hpy].
  unfold findIndex; now rewrite (findIndex_from_first _ _ _ 0%Z _ _ Hy Hpy Hfirst).
Qed.

Lemma findIndex_absent (id_ : JSString) (items : list Todo) :
  ~ In id_ (ids items) ->
  findIndex (fun item => str_eqb (id item) id_) items = (-1)%Z.
Proof.
  intros Hout; apply findIndex_from_none; intros x Hx.
  apply str_eqb_neq; intros E; apply Hout, in_map_iff; eauto.
Qed.

(** With unique ids the index found for an id is the index of its task. *)
Lemma findIndex_unique (items : list Todo) (n : nat) (todo : Todo) :
  NoDup (ids items) -> nth_error items n = Some todo ->
  findIndex (fun item => str_eqb (id item) (id todo)) items = Z.of_nat n.
Proof.
  intros Hnd Hn; unfold findIndex.
  rewrite (findIndex_from_first _ _ _ 0%Z _ _ Hn (str_eqb_refl _)); [lia|].
  intros m y Hm Hy; apply str_eqb_neq; intros E.
  assert (Hlen : n < length items) by (apply nth_error_Some; congruence).
  assert (m = n); [|lia].
  apply (proj1 (NoDup_nth_error (ids items)) Hnd);
    [unfold ids; rewrite length_map; lia|].
  unfold ids; rewrite !nth_error_map, Hn, Hy; cbn; congruence.
Qed.

(** On two ids of the list, [reorder] takes the task of the first out of
    its index and puts it in at the index of the second. *)
Lemma reorder_present (sourceId targetId : JSString) (items : list Todo) :
  In sourceId (ids items) -> In targetId (ids items) ->
  exists i j moved,
    findIndex (fun item => str_eqb (id item) sourceId) items = Z.of_nat i /\
    findIndex (fun item => str_eqb (id item) targetId) items = Z.of_nat j /\
    nth_error items i = Some moved /\ id moved = sourceId /\
    (exists over, nth_error items j = Some over /\ id over = targetId) /\
    reorder sourceId targetId items = Some (insertAt j moved (removeAt i items)).
Proof.
  intros Hs Ht.
  destruct (findIndex_present _ _ Hs) as (i & x & Hi & Hx & Hidx).
  destruct (findIndex_present _ _ Ht) as (j & y & Hj & Hy & Hidy).
  exists i, j, x; repeat split; eauto.
  unfold reorder; rewrite Hi, Hj.
  apply arrayMove_in_range; [exact Hx|].
  apply nth_error_Some; congruence.
Qed.

(** A drag released over its own card, or over no card, changes nothing. *)
Lemma requestReorder_same (id_ : JSString) (st : State) :
  requestReorder id_ id_ st = Some st /\
  handleDragEnd (mkDragEnd id_ None) st = Some st.
Proof.
  unfold requestReorder, handleDragEnd; cbn.
  now rewrite str_eqb_refl.
Qed.

(** The index [-1] of an absent id is not stopped on its way to
    [arrayMove], where as a source it stands for the last index. *)
Lemma arrayMove_from_absent (T : Type) (array : list T) (to : Z) :
  array <> [] ->
  arrayMove array (-1) to =
  arrayMove array (Z.of_nat (pred (length array))) to.
Proof.
  intros Hne; unfold arrayMove.
  assert (0 < length array) by (destruct array; cbn; [congruence | lia]).
  rewrite (@splice_at _ array (-1) 1 [] (pred (length array)) 1)
    by (cbn [Z.ltb Z.compare]; lia).
  rewrite (@splice_at _ array (Z.of_nat (pred (length array))) 1 []
             (pred (length array)) 1);
    [reflexivity | | lia].
  destruct (Z.ltb_spec (Z.of_nat (pred (length array))) 0); lia.
Qed.

Lemma arrayMove_to_absent (T : Type) (array : list T) (from : Z) :
  array <> [] ->
  arrayMove array from (-1) =
  arrayMove array from (Z.of_nat (pred (length array))).
Proof.
  intros Hne; unfold arrayMove.
  assert (0 < length array) by (destruct array; cbn; [congruence | lia]).
  destruct (Z.ltb_spec (Z.of_nat (pred (length array))) 0); [lia|].
  cbn [Z.ltb Z.compare].
  now replace (Z.of_nat (length array) + -1)%Z
    with (Z.of_nat (pred (length array))) by lia.
Qed.

(** So a drag whose source id is absent moves the last task of the list to
    the target, and a drag whose target id is absent moves the dragged task
    to the end of the list. *)
Lemma reorder_absent_id (sourceId targetId : JSString) (items : list Todo) :
  (~ In sourceId (ids items) -> In targetId (ids items) ->
   exists j last,
     findIndex (fun item => str_eqb (id item) targetId) items = Z.of_nat j /\
     nth_error items (pred (length items)) = Some last /\
     reorder sourceId targetId items =
       Some (insertAt j last (removeAt (pred (length items)) items))) /\
  (In sourceId (ids items) -> ~ In targetId (ids items) ->
   exists i moved,
     findIndex (fun item => str_eqb (id item) sourceId) items = Z.of_nat i /\
     nth_error items i = Some moved /\
     reorder sourceId targetId items =
       Some (insertAt (pred (length items)) moved (removeAt i items))).
Proof.
  split; intros Hs Ht.
  - destruct (findIndex_present _ _ Ht) as (j & y & Hj & Hy & _).
    assert (Hlj : j < length items) by (apply nth_error_Some; congruence).
    assert (Hne : items <> []) by (intros ->; cbn in Hlj; lia).
    destruct (nth_error items (pred (length items))) as [last|] eqn:Hlast;
      [|apply nth_error_None in Hlast; lia].
    exists j, last; repeat split; auto.
    unfold reorder; rewrite (findIndex_absent _ _ Hs), Hj.
    rewrite arrayMove_from_absent by exact Hne.
    now apply arrayMove_in_range.
  - destruct (findIndex_present _ _ Hs) as (i & x & Hi & Hx & _).
    assert (Hli : i < length items) by (apply nth_error_Some; congruence).
    assert (Hne : items <> []) by (intros ->; cbn in Hli; lia).
    exists i, x; repeat split; auto.
    unfold reorder; rewrite (findIndex_absent _ _ Ht), Hi.
    rewrite arrayMove_to_absent by exact Hne.
    apply arrayMove_in_range; [exact Hx | lia].
Qed.

(** C2, on the code: the source id "9" is not in the list, and the drag
    moves the last task to the front; with the target id absent the
    dragged task goes to the end.  Neither leaves the list unchanged. *)
Theorem reorder_with_absent_id_moves_a_task :
  ~ In (js "9") (ids [milk; eggs; rent]) /\
  requestReorder (js "9") (js "1") (loaded [milk; eggs; rent]) =
    Some (loaded [rent; milk; eggs]) /\
  requestReorder (js "1") (js "9") (loaded [milk; eggs; rent]) =
    Some (loaded [eggs; rent; milk]).
Proof.
  split; [|split; reflexivity].
  cbn; intros [H|[H|[H|[]]]]; discriminate.
Qed.

(** C3. For two different ids of the list, [requestReorder] takes the
    task found for the source id out of its index [i] and puts it in at
    the index [j] found for the target id.  The new list holds the same
    tasks, the moved one at index [j]; without it the list is the old list
    without it, so all other tasks keep their order.  No request is sent
    and no handler is left suspended. *)
Theorem reorder_moves_source_to_target (sourceId targetId : JSString)
  (st : State) :
  sourceId <> targetId ->
  In sourceId (ids (todos st)) -> In targetId (ids (todos st)) ->
  exists i j moved st',
    findIndex (fun item => str_eqb (id item) sourceId) (todos st)
      = Z.of_nat i /\
    findIndex (fun item => str_eqb (id item) targetId) (todos st)
      = Z.of_nat j /\
    nth_error (todos st) i = Some moved /\ id moved = sourceId /\
    requestReorder sourceId targetId st = Some st' /\
    todos st' = insertAt j moved (removeAt i (todos st)) /\
    Permutation (todos st) (todos st') /\
    nth_error (todos st') j = Some moved /\
    removeAt j (todos st') = removeAt i (todos st) /\
    others sourceId (todos st') = others sourceId (todos st) /\
    requests st' = requests st /\ inflight st' = inflight st.
Proof.
  intros Hne Hs Ht.
  destruct (reorder_present _ _ _ Hs Ht)
    as (i & j & x & Hi & Hj & Hx & Hid & (y & Hy & _) & Hre).
  assert (Hli : i < length (todos st)) by (apply nth_error_Some; congruence).
  assert (Hlj : j < length (todos st)) by (apply nth_error_Some; congruence).
  assert (Hjr : j <= length (removeAt i (todos st)))
    by (rewrite removeAt_length by lia; lia).
  exists i, j, x; eexists.
  split; [exact Hi|]; split; [exact Hj|]; split; [exact Hx|].
  split; [exact Hid|].
  split.
  { unfold requestReorder, handleDragEnd; cbn [over active].
    apply str_eqb_neq in Hne; rewrite Hne, Hre; reflexivity. }
  cbn [todos requests inflight setTodos]; repeat apply conj; auto.
  - etransitivity; [apply (removeAt_perm _ _ _ _ Hx) | apply insertAt_perm].
  - rewrite nth_error_insertAt, Nat.ltb_irrefl, Nat.eqb_refl by lia.
    reflexivity.
  - now apply removeAt_insertAt.
  - assert (Hp : negb (str_eqb (id x) sourceId) = false)
      by (rewrite Hid, str_eqb_refl; reflexivity).
    unfold others; rewrite filter_insertAt by exact Hp.
    now apply filter_removeAt with (x := x).
Qed.

Lemma reorder_moves_source_to_target_witness :
  exists i j moved st',
    findIndex (fun item => str_eqb (id item) (js "3"))
      [milk; eggs; rent; call; walk] = Z.of_nat i /\
    findIndex (fun item => str_eqb (id item) (js "1"))
      [milk; eggs; rent; call; walk] = Z.of_nat j /\
    nth_error [milk; eggs; rent; call; walk] i = Some moved /\
    id moved = js "3" /\
    requestReorder (js "3") (js "1") (loaded [milk; eggs; rent; call; walk])
      = Some st' /\
    todos st' = insertAt j moved (removeAt i [milk; eggs; rent; call; walk]) /\
    Permutation [milk; eggs; rent; call; walk] (todos st') /\
    nth_error (todos st') j = Some moved /\
    removeAt j (todos st') = removeAt i [milk; eggs; rent; call; walk] /\
    others (js "3") (todos st')
      = others (js "3") [milk; eggs; rent; call; walk] /\
    requests st' = [] /\ inflight st' = [].
Proof.
  apply (reorder_moves_source_to_target (js "3") (js "1")
           (loaded [milk; eggs; rent; call; walk])).
  - discriminate.
  - cbn; auto.
  - cbn; auto.
Defined.

(** The example of the specification: index 2 to index 0 among five. *)
Lemma reorder_third_to_front :
  requestReorder (js "3") (js "1") (loaded [milk; eggs; rent; call; walk]) =
  Some (loaded [rent; milk; eggs; call; walk]).
Proof. reflexivity. Qed.

Lemma nth_error_ids (items : list Todo) (n : nat) (todo : Todo) :
  nth_error items n = Some todo -> nth_error (ids items) n = Some (id todo).
Proof. intros H; unfold ids; rewrite nth_error_map, H; reflexivity. Qed.

(** With unique ids, tasks at different indices have different ids. *)
Lemma ids_differ (items : list Todo) (m n : nat) (a b : Todo) :
  NoDup (ids items) ->
  nth_error items m = Some a -> nth_error items n = Some b ->
  m <> n -> id a <> id b.
Proof.
  intros Hnd Ha Hb Hmn E; apply Hmn.
  apply (proj1 (NoDup_nth_error (ids items)) Hnd).
  - unfold ids; rewrite length_map; apply nth_error_Some; congruence.
  - rewrite (nth_error_ids _ _ _ Ha), (nth_error_ids _ _ _ Hb); congruence.
Qed.

(** C9. In a list with unique ids, move the task [X] to the place of
    [Y], then move it to the place of its former neighbour, the task that
    stood next to it on the side of [Y] and now stands at the old index of
    [X]: the state is the one before the two moves.  (For [X = Y] neither
    move does anything.) *)
Theorem reorder_round_trip (X Y : JSString) (st : State) :
  NoDup (ids (todos st)) ->
  In X (ids (todos st)) -> In Y (ids (todos st)) ->
  exists i j moved neighbour,
    findIndex (fun item => str_eqb (id item) X) (todos st) = Z.of_nat i /\
    findIndex (fun item => str_eqb (id item) Y) (todos st) = Z.of_nat j /\
    requestReorder X Y st = Some moved /\
    nth_error (todos st) (towards i j) = Some neighbour /\
    nth_error (todos moved) i = Some neighbour /\
    requestReorder X (id neighbour) moved = Some st.
Proof.
  intros Hnd HX HY.
  destruct (reorder_present _ _ _ HX HY)
    as (i & j & x & Hi & Hj & Hx & Hidx & (y & Hy & Hidy) & Hre).
  assert (Hli : i < length (todos st)) by (apply nth_error_Some; congruence).
  assert (Hlj : j < length (todos st)) by (apply nth_error_Some; congruence).
  destruct (str_eqb X Y) eqn:HXY.
  - (* the card is released over itself *)
    apply str_eqb_eq in HXY; rewrite <- HXY in *; clear HXY.
    assert (j = i) by (rewrite Hi in Hj; now apply Nat2Z.inj in Hj); subst j.
    exists i, i, st, x.
    assert (Hself : towards i i = i)
      by (unfold towards; now rewrite Nat.ltb_irrefl).
    rewrite Hself, Hidx.
    repeat split; auto; apply requestReorder_same.
  - apply str_eqb_neq in HXY.
    assert (Hij : i <> j) by (intros ->; congruence).
    set (r := insertAt j x (removeAt i (todos st))) in *.
    assert (Hlr : length r = length (todos st))
      by (unfold r; rewrite insertAt_length, removeAt_length; lia).
    assert (Hperm : Permutation (todos st) r)
      by (etransitivity;
          [apply (removeAt_perm _ _ _ _ Hx) | apply insertAt_perm]).
    assert (Hndr : NoDup (ids r))
      by (apply (Permutation_NoDup (l := ids (todos st))); auto;
          apply Permutation_map; exact Hperm).
    assert (Hrj : nth_error r j = Some x).
    { unfold r; rewrite nth_error_insertAt, Nat.ltb_irrefl, Nat.eqb_refl
        by (rewrite removeAt_length; lia); reflexivity. }
    assert (Hri : nth_error r i = nth_error (todos st) (towards i j))
      by (apply nth_error_moved; auto).
    destruct (nth_error (todos st) (towards i j)) as [nb|] eqn:Hnb.
    2:{ apply nth_error_None in Hnb; unfold towards in Hnb.
        destruct (Nat.ltb_spec i j); [lia|].
        destruct (Nat.ltb_spec j i); lia. }
    exists i, j, (setTodos (fun _ => r) st), nb.
    split; [exact Hi|]; split; [exact Hj|].
    split.
    { unfold requestReorder, handleDragEnd; cbn [over active].
      apply str_eqb_neq in HXY; rewrite HXY, Hre; reflexivity. }
    split; [exact Hnb|]; split; [exact Hri|].
    assert (Hback : X <> id nb)
      by (rewrite <- Hidx; apply (ids_differ r j i); auto).
    unfold requestReorder, handleDragEnd; cbn [over active todos setTodos].
    apply str_eqb_neq in Hback; rewrite Hback; cbn [negb].
    unfold reorder.
    rewrite <- Hidx, (findIndex_unique r j x), (findIndex_unique r i nb)
      by assumption.
    rewrite (arrayMove_in_range _ r j i x) by (auto; lia).
    unfold r; rewrite removeAt_insertAt by (rewrite removeAt_length; lia).
    rewrite insertAt_removeAt by exact Hx.
    destruct st; reflexivity.
Qed.

Lemma reorder_round_trip_witness :
  let st := loaded [milk; eggs; rent; call; walk] in
  exists i j moved neighbour,
    findIndex (fun item => str_eqb (id item) (js "2")) (todos st)
      = Z.of_nat i /\
    findIndex (fun item => str_eqb (id item) (js "5")) (todos st)
      = Z.of_nat j /\
    requestReorder (js "2") (js "5") st = Some moved /\
    nth_error (todos st) (towards i j) = Some neighbour /\
    nth_error (todos moved) i = Some neighbour /\
    requestReorder (js "2") (id neighbour) moved = Some st.
Proof.
  apply (reorder_round_trip (js "2") (js "5")
           (loaded [milk; eggs; rent; call; walk])).
  - cbn; repeat constructor; cbn; intuition discriminate.
  - cbn; auto.
  - cbn; auto 6.
Defined.

(** Without unique ids the first move can hide the moved task behind a
    namesake, and the way back then moves the namesake. *)
Lemma reorder_round_trip_needs_unique_ids :
  let twin := mkTodo (js "1") (js "buy milk again") false in
  let st := loaded [milk; eggs; twin; call] in
  requestReorder (js "1") (js "4") st = Some (loaded [eggs; twin; call; milk])
  /\ requestReorder (js "1") (js "2") (loaded [eggs; twin; call; milk])
     = Some (loaded [twin; eggs; call; milk]).
Proof. split; reflexivity. Qed.

(** ** Completion is never taken back *)

Lemma keeps_completed_same : keeps_completed (fun todo => todo).
Proof. intros todo; auto. Qed.

Lemma evolves_perm (before after : list Todo) :
  Permutation before after -> evolves [] before after.
Proof.
  intros Hperm; exists (fun todo => todo), before, [].
  split; [apply keeps_completed_same|].
  rewrite app_nil_r, map_id; split; [reflexivity | now symmetry].
Qed.

Lemma evolves_map (f : Todo -> Todo) (items : list Todo) :
  keeps_completed f -> evolves [] items (map f items).
Proof.
  intros Hf; exists f, items, [].
  rewrite app_nil_r; repeat split; auto; apply Hf.
Qed.

Lemma evolves_filter (p : Todo -> bool) (items : list Todo) :
  evolves [] items (filter p items).
Proof.
  exists (fun todo => todo), (filter p items),
    (filter (fun todo => negb (p todo)) items).
  split; [apply keeps_completed_same|].
  rewrite map_id; split; [|reflexivity].
  induction items as [|todo items IH]; cbn; [constructor|].
  destruct (p todo); cbn.
  - now constructor.
  - etransitivity; [apply perm_skip, IH | apply Permutation_middle].
Qed.

Lemma evolves_born (todo : Todo) (items : list Todo) :
  evolves [todo] items (todo :: items).
Proof.
  exists (fun todo => todo), items, [].
  split; [apply keeps_completed_same|].
  rewrite app_nil_r, map_id; split; reflexivity.
Qed.

Lemma effect_evolves (k : Pending) (resp : Response) (items : list Todo) :
  evolves (match k, resp with AwaitCreate, RespOk payload => [payload]
                            | _, _ => [] end)
          items (effect k resp items).
Proof.
  destruct k, resp; try (apply evolves_perm; reflexivity).
  - apply evolves_born.
  - apply evolves_map; intros todo; by_ids; auto.
  - apply evolves_filter.
  - apply evolves_map; intros todo; by_ids; auto.
Qed.

Lemma step_evolves (ev : Event) (st st' : State) :
  step ev st = Some st' -> evolves (created ev st) (todos st) (todos st').
Proof.
  destruct ev; cbn [step created].
  - intros [= <-]; apply evolves_perm; reflexivity.
  - intros [= <-]; apply evolves_perm; unfold createTodo.
    destruct (negb _); reflexivity.
  - intros [= <-]; apply evolves_perm; unfold toggleTodo.
    destruct completed_; reflexivity.
  - intros [= <-]; apply evolves_perm; reflexivity.
  - intros [= <-]; apply evolves_perm; reflexivity.
  - unfold handleDragEnd.
    destruct (over event) as [overId|]; [|intros [= <-]; now apply evolves_perm].
    destruct (negb _); [|intros [= <-]; now apply evolves_perm].
    destruct (reorder _ _ _) as [items|] eqn:Hre; [|discriminate].
    intros [= <-]; apply evolves_perm; cbn [todos setTodos].
    exact (arrayMove_perm _ _ _ _ _ Hre).
  - destruct (nth_error (inflight st) n) as [k|]; [|discriminate].
    intros [= <-]; rewrite todos_resume; cbn [todos settle].
    generalize (effect_evolves k resp (todos st)).
    destruct resp, k; auto.
Qed.

Lemma created_payloads (ev : Event) (st : State) (todo : Todo) :
  In todo (created ev st) -> In todo (payloads [ev]).
Proof.
  destruct ev as [| | | | | |n [payload| |]]; cbn; try contradiction.
  destruct (nth_error (inflight st) n) as [[| | |]|]; cbn; tauto.
Qed.

Lemma payloads_cons (ev : Event) (evs : list Event) (todo : Todo) :
  In todo (payloads (ev :: evs)) <->
  In todo (payloads [ev]) \/ In todo (payloads evs).
Proof.
  destruct ev as [| | | | | |n [payload| |]]; cbn; tauto.
Qed.

(** Along any run: a task that is open at the end has the id of a task that
    was open at the start, or of an open task that a response brought in.
    With unique ids this is the same task, so none went back from completed
    to open. *)
Lemma run_keeps_completed (evs : list Event) (st st' : State) (todo' : Todo) :
  run evs st = Some st' ->
  In todo' (todos st') -> completed todo' = false ->
  exists todo,
    (In todo (todos st) \/ In todo (payloads evs)) /\
    id todo = id todo' /\ completed todo = false.
Proof.
  revert st; induction evs as [|ev evs IH]; intros st Hrun Hin Hopen.
  - injection Hrun as <-; exists todo'; auto.
  - cbn [run] in Hrun.
    destruct (step ev st) as [st1|] eqn:Hstep; [|discriminate].
    destruct (IH st1 Hrun Hin Hopen) as (t1 & Hfrom & Hid & Ht1).
    destruct Hfrom as [Hin1|Hborn];
      [|exists t1; split; [right; apply payloads_cons; auto | auto]].
    destruct (step_evolves ev st st1 Hstep)
      as (f & kept & gone & Hf & Hbefore & Hafter).
    apply (Permutation_in _ Hafter), in_app_or in Hin1.
    destruct Hin1 as [Hborn|Hkept].
    + exists t1; split; [|auto].
      right; apply payloads_cons; left.
      now apply created_payloads with (st := st).
    + apply in_map_iff in Hkept; destruct Hkept as (t0 & <- & Hk).
      destruct (Hf t0) as [Hsame Hdone].
      exists t0; repeat split.
      * left; apply (Permutation_in _ (Permutation_sym Hbefore)).
        apply in_or_app; auto.
      * congruence.
      * destruct (completed t0); [rewrite Hdone in Ht1 by reflexivity|];
          congruence.
Qed.

(** C4. [toggleTodo] called for a completed task returns at its guard:
    the state is as before, with no request sent; and the button of the
    card of a completed task does not even call it.  Every step of the
    engine (typing, create, toggle, edit, delete, a drag, any response to
    any suspended handler) leaves a list made of the task born in that step,
    if any, and of tasks of the list before, each with its id kept and, if
    it was completed, still completed. *)
Theorem completed_is_monotone :
  (forall id_ st,
     toggleTodo id_ true st = st /\ step (Toggle id_ true) st = Some st) /\
  (forall todo st,
     completed todo = true -> clickToggle todo toggleTodo st = st) /\
  (forall ev st st',
     step ev st = Some st' ->
     evolves (created ev st) (todos st) (todos st')).
Proof.
  split; [|split].
  - intros id_ st; split; reflexivity.
  - intros todo st Hdone; unfold clickToggle; now rewrite Hdone.
  - apply step_evolves.
Qed.

Lemma completed_is_monotone_witness :
  clickToggle rent toggleTodo (loaded [milk; rent]) = loaded [milk; rent] /\
  evolves [] [milk; rent] [milk; mkTodo (js "3") (js "pay rent now") true].
Proof.
  destruct completed_is_monotone as (_ & Hclick & Hstep).
  split; [apply Hclick; reflexivity|].
  exact (Hstep (Arrive 0 (RespOk rent))
           (mkState [milk; rent] [] false []
                    [AwaitEdit (js "3") (js "pay rent now")] [] [])
           (mkState [milk; mkTodo (js "3") (js "pay rent now") true] [] false
                    [] [] [success "Todo updated successfully!"] [])
           eq_refl).
Defined.


(** ** Trimming *)

Lemma trimStart_split (s : JSString) :
  exists pre, s = pre ++ trimStart s /\ blank pre /\ tight (trimStart s).
Proof.
  induction s as [|c s IH]; [exists []; repeat split|].
  destruct IH as (pre & Hs & Hpre & Ht).
  cbn [trimStart]; destruct (isWhiteSpace c) eqn:Hc.
  - exists (c :: pre); repeat split; auto.
    + cbn; congruence.
    + unfold blank; cbn; now rewrite Hc.
  - exists []; repeat split; auto.
Qed.

Lemma trimStart_tight (s : JSString) : tight s -> trimStart s = s.
Proof. destruct s as [|c s]; cbn; [auto | now intros ->]. Qed.

Lemma trimStart_app_tight (l m : JSString) :
  tight m -> m <> [] -> trimStart (l ++ m) = trimStart l ++ m.
Proof.
  intros Ht Hm; induction l as [|c l IH]; cbn.
  - now apply trimStart_tight.
  - destruct (isWhiteSpace c); auto.
Qed.

Lemma blank_rev (s : JSString) : blank s -> blank (rev s).
Proof.
  unfold blank; rewrite !forallb_forall.
  intros H c Hc; apply H, in_rev; exact Hc.
Qed.

Lemma trimEnd_split (s : JSString) :
  exists post,
    s = trimEnd s ++ post /\ blank post /\ tight (rev (trimEnd s)).
Proof.
  destruct (trimStart_split (rev s)) as (pre & Hs & Hpre & Ht).
  exists (rev pre); unfold trimEnd; rewrite rev_involutive.
  repeat split; auto using blank_rev.
  rewrite <- rev_app_distr, <- Hs; symmetry; apply rev_involutive.
Qed.

(** Stripping the end does not touch a non-blank first character. *)
Lemma trimEnd_tight (s : JSString) : tight s -> tight (trimEnd s).
Proof.
  destruct s as [|c s]; [auto|]; cbn [tight]; intros Hc.
  unfold trimEnd; cbn [rev].
  rewrite trimStart_app_tight by (cbn; auto; discriminate).
  now rewrite rev_app_distr.
Qed.

(** What [trim] does: it takes white space off both ends and nothing else,
    and what is left neither starts nor ends with white space. *)
Lemma trim_split (s : JSString) :
  exists pre post,
    s = pre ++ trim s ++ post /\ blank pre /\ blank post /\
    tight (trim s) /\ tight (rev (trim s)).
Proof.
  destruct (trimStart_split s) as (pre & Hs & Hpre & Ht).
  destruct (trimEnd_split (trimStart s)) as (post & Hs' & Hpost & Ht').
  exists pre, post; unfold trim; repeat split; auto.
  - now rewrite <- Hs', <- Hs.
  - now apply trimEnd_tight.
Qed.

Lemma trim_fixed (s : JSString) :
  tight s -> tight (rev s) -> trim s = s.
Proof.
  intros Ht Hr; unfold trim, trimEnd.
  rewrite (trimStart_tight s Ht), (trimStart_tight (rev s) Hr).
  apply rev_involutive.
Qed.

Lemma trim_idempotent (s : JSString) : trim (trim s) = trim s.
Proof.
  destruct (trim_split s) as (_ & _ & _ & _ & _ & Ht & Hr).
  now apply trim_fixed.
Qed.

Lemma blank_app (a b : JSString) : blank (a ++ b) <-> blank a /\ blank b.
Proof. unfold blank; rewrite forallb_app; apply andb_true_iff. Qed.

Lemma trim_blank (s : JSString) : trim s = [] <-> blank s.
Proof.
  split.
  - intros He; destruct (trim_split s) as (pre & post & Hs & Hpre & Hpost & _).
    rewrite He in Hs; rewrite Hs; cbn; apply blank_app; auto.
  - intros Hb; unfold trim.
    assert (Hstart : trimStart s = []).
    { induction s as [|c s IH]; [reflexivity|].
      unfold blank in Hb; cbn in Hb; apply andb_true_iff in Hb.
      destruct Hb as [Hc Hb]; cbn; rewrite Hc; now apply IH. }
    rewrite Hstart; reflexivity.
Qed.

(** ** Creation, from the form to the answer *)

(** X1. Whatever the draft is, [createTodo] either returns at its guard,
    and that is exactly when the draft is white space only, or sends one
    POST whose body is the draft without the white space at its two ends:
    the body is not empty, neither starts nor ends with white space, and is
    its own trim. *)
Theorem createTodo_sends_trimmed (st : State) :
  (blank (newTodo st) /\ createTodo st = st) \/
  (~ blank (newTodo st) /\
   exists body_ pre post,
     requests (createTodo st) = requests st ++ [POST body_ false] /\
     inflight (createTodo st) = inflight st ++ [AwaitCreate] /\
     newTodo st = pre ++ body_ ++ post /\ blank pre /\ blank post /\
     body_ <> [] /\ tight body_ /\ tight (rev body_) /\ trim body_ = body_).
Proof.
  destruct (trim (newTodo st)) as [|c b] eqn:Ht.
  - left; split; [now apply trim_blank|].
    unfold createTodo; now rewrite Ht.
  - right; split; [rewrite <- trim_blank; congruence|].
    destruct (trim_split (newTodo st))
      as (pre & post & Hs & Hpre & Hpost & Htight & Hrev).
    exists (c :: b), pre, post; unfold createTodo; rewrite Ht in *.
    cbn [truthy negb]; repeat split; auto; try discriminate.
    rewrite <- Ht; apply trim_idempotent.
Qed.

(** X2. A draft with text, submitted and answered next.  In between,
    [creating] is set.  A successful answer puts the task that the server
    returned, as returned, in front of the list, empties the draft and fires
    the success notification; any other answer leaves list and draft as
    they were, so that the text can be sent again, and fires the error
    notification.  In every case [creating] is cleared. *)
Theorem create_then_answer (resp : Response) (st : State) :
  ~ blank (newTodo st) ->
  creating (createTodo st) = true /\
  todos (createTodo st) = todos st /\
  exists st',
    step (Arrive (length (inflight st)) resp) (createTodo st) = Some st' /\
    creating st' = false /\
    inflight st' = inflight st /\
    match resp with
    | RespOk createdTodo =>
        todos st' = createdTodo :: todos st /\
        newTodo st' = [] /\
        toasts st' = toasts st ++ [success "Todo created successfully!"] /\
        console st' = console st
    | _ =>
        todos st' = todos st /\
        newTodo st' = newTodo st /\
        toasts st' = toasts st ++ [failure "Failed to create todo"] /\
        length (console st') = S (length (console st))
    end.
Proof.
  intros Htext; rewrite <- trim_blank in Htext.
  unfold createTodo.
  destruct (trim (newTodo st)) as [|c b] eqn:Ht; [congruence|].
  cbn [truthy negb]; repeat split.
  eexists; split;
    [exact (arrive_after_fetch _ _ _ (setCreating true st))|].
  destruct resp; cbn; rewrite ?length_app; cbn; repeat split; auto; lia.
Qed.

Lemma create_then_answer_witness :
  let st := setNewTodo (js " buy bread ") (loaded [milk]) in
  creating (createTodo st) = true /\
  todos (createTodo st) = [milk] /\
  exists st',
    step (Arrive 0 RespNotOk) (createTodo st) = Some st' /\
    creating st' = false /\
    inflight st' = [] /\
    todos st' = [milk] /\
    newTodo st' = js " buy bread " /\
    toasts st' = [failure "Failed to create todo"] /\
    length (console st') = 1.
Proof.
  apply (create_then_answer RespNotOk
           (setNewTodo (js " buy bread ") (loaded [milk]))).
  unfold blank; cbn; discriminate.
Defined.

Lemma creates_inflight_settle (n : nat) (k : Pending) (st : State) :
  nth_error (inflight st) n = Some k ->
  creates_inflight st =
  creates_inflight (settle n st) + (if is_create k then 1 else 0).
Proof.
  intros Hk; unfold creates_inflight; cbn [inflight settle].
  rewrite <- (firstn_skipn_middle _ _ Hk) at 1.
  rewrite !filter_app, !length_app; cbn [filter].
  destruct (is_create k); cbn [length]; lia.
Qed.

Lemma creates_inflight_fetch (req : Request) (k : Pending) (st : State) :
  creates_inflight (fetch req k st) =
  creates_inflight st + (if is_create k then 1 else 0).
Proof.
  unfold creates_inflight; cbn [inflight fetch].
  rewrite filter_app, length_app; cbn [filter].
  destruct (is_create k); reflexivity.
Qed.

Lemma form_step (ev : Event) (st st' : State) :
  creates_inflight st = (if creating st then 1 else 0) ->
  (creating st = true -> In (POST (trim (newTodo st)) false) (requests st)) ->
  ui_step ev st = Some st' ->
  creates_inflight st' = (if creating st' then 1 else 0) /\
  (creating st' = true ->
   In (POST (trim (newTodo st')) false) (requests st')).
Proof.
  intros Hone Hsent; unfold ui_step.
  destruct (offered ev st) eqn:Hoff; [|discriminate].
  destruct ev; cbn [step offered] in *.
  - intros [= <-]; cbn.
    apply negb_true_iff in Hoff; rewrite Hoff in *; split; [auto|discriminate].
  - intros [= <-]; unfold submitDisabled in Hoff.
    apply negb_true_iff, orb_false_iff in Hoff; destruct Hoff as [Ht Hc].
    unfold createTodo; rewrite Ht.
    rewrite creates_inflight_fetch; cbn; rewrite Hc in Hone.
    unfold creates_inflight in *; cbn [inflight setCreating].
    split; [lia|]; intros _; apply in_or_app; right; left; reflexivity.
  - intros [= <-]; unfold toggleTodo; destruct completed_; [auto|].
    rewrite creates_inflight_fetch; cbn; rewrite Nat.add_0_r.
    split; [auto|]; intros Hc; apply in_or_app; auto.
  - intros [= <-]; unfold deleteTodo.
    rewrite creates_inflight_fetch; cbn; rewrite Nat.add_0_r.
    split; [auto|]; intros Hc; apply in_or_app; auto.
  - intros [= <-]; unfold editTodo.
    rewrite creates_inflight_fetch; cbn; rewrite Nat.add_0_r.
    split; [auto|]; intros Hc; apply in_or_app; auto.
  - unfold handleDragEnd.
    destruct (over event); [|intros [= <-]; auto].
    destruct (negb _); [|intros [= <-]; auto].
    destruct (reorder _ _ _); [|discriminate].
    intros [= <-]; auto.
  - destruct (nth_error (inflight st) n) as [k|] eqn:Hk; [|discriminate].
    intros [= <-].
    rewrite (creates_inflight_settle n k st Hk) in Hone.
    destruct k; cbn [is_create resume] in *.
    + assert (Hz : creates_inflight (settle n st) = 0)
        by (destruct (creating st); lia).
      destruct resp; cbn; (split; [exact Hz | discriminate]).
    + rewrite Nat.add_0_r in Hone; destruct resp; cbn; auto.
    + rewrite Nat.add_0_r in Hone; destruct resp; cbn; auto.
    + rewrite Nat.add_0_r in Hone; destruct resp; cbn; auto.
Qed.

(** X3. On the loaded page, with the form handing over only what its
    disabled input and button let through, after any sequence of typing,
    submits, toggles, deletes, edits, drags and answers in any order:
    at most one creation waits for its answer, [creating] is set exactly
    while it does, and the draft on screen is then still the text whose
    trim was sent, so that emptying it on success loses nothing typed. *)
Theorem one_creation_at_a_time (evs : list Event) (items : list Todo)
  (st : State) :
  ui_run evs (loaded items) = Some st ->
  creates_inflight st = (if creating st then 1 else 0) /\
  (creating st = true -> In (POST (trim (newTodo st)) false) (requests st)).
Proof.
  assert (Hgen : forall from,
            creates_inflight from = (if creating from then 1 else 0) ->
            (creating from = true ->
             In (POST (trim (newTodo from)) false) (requests from)) ->
            ui_run evs from = Some st ->
            creates_inflight st = (if creating st then 1 else 0) /\
            (creating st = true ->
             In (POST (trim (newTodo st)) false) (requests st))).
  { induction evs as [|ev evs IH]; intros from Hone Hsent Hrun.
    - injection Hrun as <-; auto.
    - cbn [ui_run] in Hrun.
      destruct (ui_step ev from) as [next|] eqn:Hstep; [|discriminate].
      destruct (form_step ev from next Hone Hsent Hstep) as [Hone' Hsent'].
      now apply (IH next). }
  apply Hgen; [reflexivity | discriminate].
Qed.

Lemma one_creation_at_a_time_witness :
  exists st,
    ui_run [Type_ (js " buy bread "); Submit; Toggle (js "1") false;
            Arrive 1 RespNotOk]
           (loaded [milk]) = Some st /\
    creates_inflight st = 1 /\ creating st = true /\
    In (POST (js "buy bread") false) (requests st).
Proof.
  eexists; split; [reflexivity|].
  destruct (one_creation_at_a_time
              [Type_ (js " buy bread "); Submit; Toggle (js "1") false;
               Arrive 1 RespNotOk]
              [milk] _ eq_refl) as [Hone Hsent].
  split; [exact Hone|]; split; [reflexivity|].
  exact (Hsent eq_refl).
Defined.

(** The gate is the form's, not the handler's: [createTodo] called again
    while the first call waits sends a second POST. *)
Lemma createTodo_has_no_gate_of_its_own :
  let st := setNewTodo (js "buy bread") (loaded []) in
  requests (createTodo (createTodo st)) =
    [POST (js "buy bread") false; POST (js "buy bread") false] /\
  ui_run [Submit; Submit] st = None.
Proof. split; reflexivity. Qed.

(** ** Requests and notifications *)

Lemma settle_length (n : nat) (k : Pending) (st : State) :
  nth_error (inflight st) n = Some k ->
  length (inflight st) = S (length (inflight (settle n st))).
Proof.
  intros Hk; cbn [inflight settle].
  rewrite <- (firstn_skipn_middle _ _ Hk) at 1.
  rewrite !length_app; cbn [length]; lia.
Qed.

Lemma resume_accounts (k : Pending) (resp : Response) (st : State) :
  requests (resume k resp st) = requests st /\
  inflight (resume k resp st) = inflight st /\
  (exists t, toasts (resume k resp st) = toasts st ++ [t] /\
             variant t = (if ok resp then None else Some (js "destructive")))
  /\ length (console (resume k resp st)) =
     length (console st) + (if ok resp then 0 else 1).
Proof.
  destruct k, resp; cbn; rewrite ?length_app; cbn;
    repeat split; eauto; lia.
Qed.

(** X4. From a loaded page, after any sequence of events: every request
    sent is either still waiting for its answer or has been answered by
    exactly one notification, and every error notification comes with
    exactly one line on the console. *)
Theorem every_request_is_answered_once (evs : list Event)
  (items : list Todo) (st : State) :
  run evs (loaded items) = Some st ->
  length (requests st) = length (inflight st) + length (toasts st) /\
  length (console st) =
    length (filter (fun t => match variant t with
                             | Some _ => true
                             | None => false
                             end) (toasts st)).
Proof.
  assert (Hgen : forall from,
            length (requests from) =
              length (inflight from) + length (toasts from) ->
            length (console from) =
              length (filter (fun t => match variant t with
                                       | Some _ => true
                                       | None => false
                                       end) (toasts from)) ->
            run evs from = Some st ->
            length (requests st) = length (inflight st) + length (toasts st)
            /\ length (console st) =
               length (filter (fun t => match variant t with
                                        | Some _ => true
                                        | None => false
                                        end) (toasts st))).
  { induction evs as [|ev evs IH]; intros from Hbal Hcon Hrun.
    - injection Hrun as <-; auto.
    - cbn [run] in Hrun.
      destruct (step ev from) as [next|] eqn:Hstep; [|discriminate].
      apply (IH next); auto; clear IH Hrun;
        destruct ev; cbn [step] in Hstep.
      all: try (injection Hstep as <-; cbn; auto; fail).
      all: try (injection Hstep as <-;
                try unfold createTodo; try unfold toggleTodo;
                repeat match goal with
                       | |- context [if ?c then _ else _] => destruct c
                       end;
                cbn; rewrite ?length_app; cbn; auto; lia).
      all: try (unfold handleDragEnd in Hstep;
                destruct (over event); [|injection Hstep as <-; auto];
                destruct (negb _); [|injection Hstep as <-; auto];
                destruct (reorder _ _ _); [|discriminate];
                injection Hstep as <-; auto; fail).
      all: destruct (nth_error (inflight from) n) as [k|] eqn:Hk;
        [|discriminate]; injection Hstep as <-;
        destruct (resume_accounts k resp (settle n from))
          as (Hr & Hi & (t & Ht & Hv) & Hc).
      + rewrite Hr, Hi, Ht, length_app; cbn [length].
        rewrite (settle_length n k from Hk) in Hbal.
        cbn [requests toasts settle] in *; lia.
      + rewrite Hc, Ht, filter_app, length_app; cbn [filter].
        rewrite Hv; cbn [console toasts settle] in *.
        destruct (ok resp); cbn [length]; lia. }
  apply Hgen; reflexivity.
Qed.

Lemma every_request_is_answered_once_witness :
  exists st,
    run [Delete (js "1"); Edit (js "2") (js "x"); Arrive 1 RespNotOk]
        (loaded [milk; eggs]) = Some st /\
    length (requests st) = length (inflight st) + length (toasts st) /\
    length (console st) = 1.
Proof.
  eexists; split; [reflexivity|].
  exact (every_request_is_answered_once
           [Delete (js "1"); Edit (js "2") (js "x"); Arrive 1 RespNotOk]
           [milk; eggs] _ eq_refl).
Defined.

(** ** Mutations of one task *)

Lemma ids_filter_NoDup (p : Todo -> bool) (items : list Todo) :
  NoDup (ids items) -> NoDup (ids (filter p items)).
Proof.
  unfold ids; induction items as [|todo items IH]; cbn; auto.
  intros Hnd; inversion Hnd as [|? ? Hout Hrest]; subst.
  destruct (p todo); cbn; auto.
  constructor; auto.
  intros Hin; apply Hout.
  apply in_map_iff in Hin; destruct Hin as (x & Hx & Hin).
  apply filter_In in Hin; apply in_map_iff; exists x; tauto.
Qed.

(** X5. Unique ids are kept by every step of the engine, as long as the
    task that a successful creation brings in has an id that no stored
    task has. *)
Theorem unique_ids_are_kept (ev : Event) (st st' : State) :
  NoDup (ids (todos st)) ->
  (forall todo, In todo (created ev st) -> ~ In (id todo) (ids (todos st))) ->
  step ev st = Some st' ->
  NoDup (ids (todos st')).
Proof.
  intros Hnd Hfresh; destruct ev; cbn [step].
  - intros [= <-]; exact Hnd.
  - intros [= <-]; unfold createTodo; destruct (negb _); exact Hnd.
  - intros [= <-]; unfold toggleTodo; destruct completed_; exact Hnd.
  - intros [= <-]; exact Hnd.
  - intros [= <-]; exact Hnd.
  - unfold handleDragEnd.
    destruct (over event); [|intros [= <-]; exact Hnd].
    destruct (negb _); [|intros [= <-]; exact Hnd].
    destruct (reorder _ _ _) as [items|] eqn:Hre; [|discriminate].
    intros [= <-]; cbn [todos setTodos].
    apply (Permutation_NoDup (l := ids (todos st))); auto.
    apply Permutation_map, (arrayMove_perm _ _ _ _ _ Hre).
  - cbn [created] in Hfresh.
    destruct (nth_error (inflight st) n) as [k|]; [|discriminate].
    intros [= <-]; rewrite todos_resume; cbn [todos settle].
    destruct k.
    + destruct resp as [payload| |]; try exact Hnd.
      cbn; constructor; auto.
      apply Hfresh; left; reflexivity.
    + now rewrite (effect_ids (AwaitToggle id_) resp (todos st)).
    + destruct resp; try exact Hnd.
      apply ids_filter_NoDup; exact Hnd.
    + now rewrite (effect_ids (AwaitEdit id_ newBody) resp (todos st)).
Qed.

Lemma unique_ids_are_kept_witness :
  NoDup (ids [call; milk; eggs]).
Proof.
  apply (unique_ids_are_kept (Arrive 0 (RespOk call))
           (mkState [milk; eggs] (js "call home") true
                    [POST (js "call home") false] [AwaitCreate] [] [])
           (mkState [call; milk; eggs] (js "") false
                    [POST (js "call home") false] []
                    [success "Todo created successfully!"] [])).
  - cbn; repeat constructor; cbn; intuition discriminate.
  - cbn; intros todo [<-|[]]; cbn; intuition discriminate.
  - reflexivity.
Defined.

Lemma effect_absent (k : Pending) (id_ : JSString) (resp : Response)
  (items : list Todo) :
  target k = Some id_ -> ~ In id_ (ids items) -> effect k resp items = items.
Proof.
  intros Hk; destruct k; cbn in Hk; try discriminate; injection Hk as ->;
    destruct resp; try reflexivity; unfold effect, ids; cbn;
    induction items as [|todo items IH]; cbn; auto; intros Hout;
    (destruct (str_eqb (id todo) id_) eqn:E;
     [apply str_eqb_eq in E; tauto | cbn; f_equal; apply IH; tauto]).
Qed.

(** X6. A toggle, edit or delete of an id that no stored task has is not
    stopped: its request is sent all the same.  Whatever the answer, the
    task list is then exactly as before. *)
Theorem mutation_of_absent_id (k : Pending) (id_ : JSString)
  (resp : Response) (st : State) :
  target k = Some id_ -> ~ In id_ (ids (todos st)) ->
  requests (toggleTodo id_ false st) = requests st ++ [PATCH id_] /\
  requests (deleteTodo id_ st) = requests st ++ [DELETE id_] /\
  (forall newBody,
     requests (editTodo id_ newBody st) = requests st ++ [PUT id_ newBody]) /\
  todos (resume k resp st) = todos st.
Proof.
  intros Hk Hout; repeat split.
  rewrite todos_resume; now apply effect_absent with (id_ := id_).
Qed.

Lemma mutation_of_absent_id_witness :
  todos (resume (AwaitDelete (js "9")) (RespOk milk) (loaded [milk; eggs]))
    = [milk; eggs].
Proof.
  apply (mutation_of_absent_id (AwaitDelete (js "9")) (js "9") (RespOk milk)
           (loaded [milk; eggs]) eq_refl).
  cbn; intuition discriminate.
Defined.

(** X7. Answers about one task, in the order they arrive.  A successful
    answer to the same mutation twice is as good as once.  Of two successful
    edits of one task the one answered last decides the text, whichever was
    requested last.  Once a delete of the task has succeeded, no answer to
    another mutation of that task brings it back, and a delete that succeeds
    after such an answer removes the task just the same. *)
Theorem answers_about_one_task (k : Pending) (id_ : JSString)
  (resp : Response) (p p' : Todo) (items : list Todo) :
  target k = Some id_ ->
  effect k (RespOk p) (effect k (RespOk p') items) = effect k (RespOk p) items
  /\ (forall b1 b2,
        effect (AwaitEdit id_ b1) (RespOk p)
          (effect (AwaitEdit id_ b2) (RespOk p') items) =
        effect (AwaitEdit id_ b1) (RespOk p) items)
  /\ effect k resp (effect (AwaitDelete id_) (RespOk p) items) =
     effect (AwaitDelete id_) (RespOk p) items
  /\ effect (AwaitDelete id_) (RespOk p) (effect k resp items) =
     effect (AwaitDelete id_) (RespOk p) items.
Proof.
  intros Hk; destruct k; cbn in Hk; try discriminate; injection Hk as ->.
  all: repeat apply conj; try intros b1 b2; destruct resp;
    try reflexivity; unfold effect; cbn;
    induction items as [|todo items IH]; cbn; auto; by_ids.
Qed.

Lemma answers_about_one_task_witness :
  effect (AwaitEdit (js "1") (js "first")) (RespOk milk)
    (effect (AwaitEdit (js "1") (js "second")) (RespOk milk) [milk; eggs]) =
  effect (AwaitEdit (js "1") (js "first")) (RespOk milk) [milk; eggs].
Proof.
  apply (answers_about_one_task (AwaitEdit (js "1") (js "first")) (js "1")
           RespNotOk milk milk [milk; eggs] eq_refl).
Defined.

(** X8. A task brought in by a successful creation and then deleted
    with success leaves the list as it was before both, when no other
    stored task has its id. *)
Theorem create_then_delete (createdTodo p : Todo) (items : list Todo) :
  ~ In (id createdTodo) (ids items) ->
  effect (AwaitDelete (id createdTodo)) (RespOk p)
    (effect AwaitCreate (RespOk createdTodo) items) = items.
Proof.
  intros Hout; unfold effect; cbn.
  rewrite str_eqb_refl; cbn.
  revert Hout; unfold ids; induction items as [|todo items IH]; cbn; auto.
  intros Hout; destruct (str_eqb (id todo) (id createdTodo)) eqn:E.
  - apply str_eqb_eq in E; tauto.
  - cbn; f_equal; apply IH; tauto.
Qed.

Lemma create_then_delete_witness :
  effect (AwaitDelete (js "4")) (RespOk call)
    (effect AwaitCreate (RespOk call) [milk; eggs]) = [milk; eggs].
Proof.
  apply (create_then_delete call call [milk; eggs]).
  cbn; intuition discriminate.
Defined.

(** X9. A successful toggle changes no id and no text, and completes
    nothing but the tasks with its id; a successful edit changes no id and
    no completion, and no text but that of the tasks with its id. *)
Theorem toggle_and_edit_touch_one_field (id_ newBody : JSString) (p : Todo)
  (items : list Todo) :
  let toggled := effect (AwaitToggle id_) (RespOk p) items in
  let edited := effect (AwaitEdit id_ newBody) (RespOk p) items in
  ids toggled = ids items /\
  map body toggled = map body items /\
  map completed toggled =
    map (fun todo => str_eqb (id todo) id_ || completed todo) items /\
  ids edited = ids items /\
  map completed edited = map completed items /\
  map body edited =
    map (fun todo => if str_eqb (id todo) id_ then newBody else body todo)
        items.
Proof.
  cbn zeta; unfold effect, ids; cbn.
  repeat apply conj; induction items as [|todo items IH]; cbn; auto;
    f_equal; auto; destruct (str_eqb (id todo) id_); reflexivity.
Qed.

(** ** Drags, whatever their ids *)

Lemma id_in_dec (id_ : JSString) (items : list Todo) :
  {In id_ (ids items)} + {~ In id_ (ids items)}.
Proof. apply in_dec, list_eq_dec, N.eq_dec. Qed.

(** On a list that is not empty [reorder] always gives a list; with both
    ids absent it gives the list back. *)
Lemma reorder_defined (activeId overId : JSString) (items : list Todo) :
  items <> [] ->
  (exists result, reorder activeId overId items = Some result) /\
  (~ In activeId (ids items) -> ~ In overId (ids items) ->
   reorder activeId overId items = Some items).
Proof.
  intros Hne.
  assert (Hboth : ~ In activeId (ids items) -> ~ In overId (ids items) ->
                  reorder activeId overId items = Some items).
  { intros Ha Ho; unfold reorder.
    rewrite (findIndex_absent _ _ Ha), (findIndex_absent _ _ Ho).
    rewrite arrayMove_from_absent, arrayMove_to_absent by exact Hne.
    assert (Hlen : 0 < length items)
      by (destruct items; cbn; [congruence | lia]).
    destruct (nth_error items (pred (length items))) as [last|] eqn:Hlast;
      [|apply nth_error_None in Hlast; lia].
    rewrite (arrayMove_in_range _ items _ _ last Hlast) by lia.
    now rewrite insertAt_removeAt. }
  split; [|exact Hboth].
  destruct (id_in_dec activeId items) as [Ha|Ha],
           (id_in_dec overId items) as [Ho|Ho].
  - destruct (reorder_present _ _ _ Ha Ho) as (i & j & x & H); eexists;
      apply H.
  - destruct (proj2 (reorder_absent_id activeId overId items) Ha Ho)
      as (i & x & H); eexists; apply H.
  - destruct (proj1 (reorder_absent_id activeId overId items) Ha Ho)
      as (j & x & H); eexists; apply H.
  - eexists; now apply Hboth.
Qed.

(** X10. [handleDragEnd] on any event.  It gives no state only on an
    empty list, for a drag released over a card with another id.  When it
    gives a state, the list holds the same tasks as before, each as often
    as before, and nothing else of the state has changed: whatever the ids
    of the event are, a drag loses, copies and rewrites no task and sends
    nothing. *)
Theorem handleDragEnd_keeps_the_tasks (event : DragEndEvent) (st : State) :
  (todos st <> [] -> exists st', handleDragEnd event st = Some st') /\
  (handleDragEnd event st = None ->
   todos st = [] /\
   exists overId, over event = Some overId /\ active event <> overId) /\
  (forall st', handleDragEnd event st = Some st' ->
     Permutation (todos st) (todos st') /\
     st' = setTodos (fun _ => todos st') st).
Proof.
  assert (Hsame : forall st', Some st = Some st' ->
            Permutation (todos st) (todos st') /\
            st' = setTodos (fun _ => todos st') st)
    by (intros st' [= <-]; split; [reflexivity | destruct st; reflexivity]).
  unfold handleDragEnd.
  destruct (over event) as [overId|];
    [|split; [eauto | split; [discriminate | exact Hsame]]].
  destruct (str_eqb (active event) overId) eqn:E; cbn [negb];
    [split; [eauto | split; [discriminate | exact Hsame]]|].
  apply str_eqb_neq in E.
  destruct (todos st) as [|todo items] eqn:Hl.
  - cbn; split; [congruence|]; split; [eauto | discriminate].
  - rewrite <- Hl.
    assert (Hne : todos st <> []) by (rewrite Hl; discriminate).
    destruct (proj1 (reorder_defined (active event) overId (todos st) Hne))
      as (result & Hre).
    rewrite Hre; split; [eauto|]; split; [discriminate|].
    intros st' [= <-]; cbn [todos setTodos]; split; [|reflexivity].
    apply (arrayMove_perm _ _ _ _ _ Hre).
Qed.

Lemma handleDragEnd_keeps_the_tasks_witness :
  Permutation [milk; eggs; rent] [rent; milk; eggs] /\
  handleDragEnd (mkDragEnd (js "8") (Some (js "9"))) (loaded []) = None.
Proof.
  split; [|reflexivity].
  destruct (handleDragEnd_keeps_the_tasks
              (mkDragEnd (js "9") (Some (js "1")))
              (loaded [milk; eggs; rent])) as (_ & _ & Hsome).
  exact (proj1 (Hsome (loaded [rent; milk; eggs]) eq_refl)).
Defined.

Lemma removeAt_middle (T : Type) (pre rest : list T) (x : T) :
  removeAt (length pre) (pre ++ x :: rest) = pre ++ rest.
Proof.
  unfold removeAt.
  rewrite firstn_app, Nat.sub_diag, firstn_all, firstn_O, app_nil_r.
  f_equal.
  change (S (length pre)) with (1 + length pre).
  rewrite <- skipn_skipn, skipn_app, Nat.sub_diag, skipn_all; reflexivity.
Qed.

Lemma insertAt_middle (T : Type) (pre rest : list T) (x : T) (k : nat) :
  insertAt (length pre + k) x (pre ++ rest) = pre ++ insertAt k x rest.
Proof.
  unfold insertAt.
  rewrite firstn_app, skipn_app, firstn_all2, skipn_all2 by lia.
  replace (length pre + k - length pre) with k by lia.
  now rewrite <- app_assoc.
Qed.

Lemma nth_error_middle (T : Type) (pre rest : list T) (x : T) :
  nth_error (pre ++ x :: rest) (length pre) = Some x.
Proof. now rewrite nth_error_app2, Nat.sub_diag by lia. Qed.

(** X11. One step with the keyboard: in a list with unique ids, dragging
    a task onto the task right after it, or that one onto the task right
    before it, exchanges the two and leaves every other task in place. *)
Theorem reorder_neighbours_swap (pre post : list Todo) (a b : Todo)
  (st : State) :
  todos st = pre ++ a :: b :: post ->
  NoDup (ids (todos st)) ->
  requestReorder (id a) (id b) st =
    Some (setTodos (fun _ => pre ++ b :: a :: post) st) /\
  requestReorder (id b) (id a) st =
    Some (setTodos (fun _ => pre ++ b :: a :: post) st).
Proof.
  intros Hl Hnd.
  assert (Ha : nth_error (todos st) (length pre) = Some a)
    by (rewrite Hl; apply nth_error_middle).
  assert (Hb : nth_error (todos st) (S (length pre)) = Some b).
  { rewrite Hl.
    change (pre ++ a :: b :: post) with (pre ++ [a] ++ b :: post).
    rewrite app_assoc.
    replace (S (length pre)) with (length (pre ++ [a]))
      by (rewrite length_app; cbn; lia).
    apply nth_error_middle. }
  assert (Hab : id a <> id b)
    by (apply (ids_differ (todos st) (length pre) (S (length pre))); auto).
  assert (Hlen : S (length pre) < length (todos st))
    by (apply nth_error_Some; congruence).
  unfold requestReorder, handleDragEnd; cbn [over active].
  rewrite (proj2 (str_eqb_neq (id a) (id b)) Hab).
  rewrite (proj2 (str_eqb_neq (id b) (id a)) (not_eq_sym Hab)).
  cbn [negb]; unfold reorder.
  rewrite (findIndex_unique _ _ _ Hnd Ha), (findIndex_unique _ _ _ Hnd Hb).
  rewrite (arrayMove_in_range _ _ _ _ a Ha) by lia.
  rewrite (arrayMove_in_range _ _ _ _ b Hb) by lia.
  rewrite Hl; split; do 3 f_equal.
  - rewrite removeAt_middle.
    replace (S (length pre)) with (length pre + 1) by lia.
    now rewrite insertAt_middle.
  - change (pre ++ a :: b :: post) with (pre ++ [a] ++ b :: post).
    rewrite app_assoc.
    replace (S (length pre)) with (length (pre ++ [a]))
      by (rewrite length_app; cbn; lia).
    rewrite removeAt_middle, <- app_assoc.
    now rewrite <- (Nat.add_0_r (length pre)), insertAt_middle.
Qed.

Lemma reorder_neighbours_swap_witness :
  requestReorder (js "2") (js "3") (loaded [milk; eggs; rent; call]) =
    Some (loaded [milk; rent; eggs; call]) /\
  requestReorder (js "3") (js "2") (loaded [milk; eggs; rent; call]) =
    Some (loaded [milk; rent; eggs; call]).
Proof.
  apply (reorder_neighbours_swap [milk] [call] eggs rent
           (loaded [milk; eggs; rent; call]) eq_refl).
  cbn; repeat constructor; cbn; intuition discriminate.
Defined.

(** ** One task, one place *)

Lemma ids_app (l1 l2 : list Todo) : ids (l1 ++ l2) = ids l1 ++ ids l2.
Proof. apply map_app. Qed.

Lemma effect_app (k : Pending) (resp : Response) (l1 l2 : list Todo) :
  target k <> None ->
  effect k resp (l1 ++ l2) = effect k resp l1 ++ effect k resp l2.
Proof.
  intros Hk; destruct k; [cbn in Hk; congruence|..];
    destruct resp; try reflexivity;
    unfold effect; cbn; auto using map_app, filter_app.
Qed.

(** X12. With unique ids a successful answer changes the list at the place
    of its task and nowhere else: a toggle completes the task where it
    stands, an edit rewrites its text where it stands, a delete closes the
    gap.  The count of completed tasks in the header goes up by exactly one
    when an open task is toggled. *)
Theorem mutation_changes_one_place (pre post : list Todo) (todo p : Todo)
  (newBody : JSString) :
  NoDup (ids (pre ++ todo :: post)) ->
  effect (AwaitToggle (id todo)) (RespOk p) (pre ++ todo :: post) =
    pre ++ mkTodo (id todo) (body todo) true :: post /\
  effect (AwaitEdit (id todo) newBody) (RespOk p) (pre ++ todo :: post) =
    pre ++ mkTodo (id todo) newBody (completed todo) :: post /\
  effect (AwaitDelete (id todo)) (RespOk p) (pre ++ todo :: post) =
    pre ++ post /\
  (completed todo = false ->
   completedCount
     (toggleTodo_resume (id todo) (RespOk p) (loaded (pre ++ todo :: post))) =
   S (completedCount (loaded (pre ++ todo :: post)))).
Proof.
  intros Hnd; rewrite ids_app in Hnd; cbn in Hnd.
  apply NoDup_remove_2 in Hnd.
  assert (Hpre : ~ In (id todo) (ids pre))
    by (intros H; apply Hnd, in_or_app; auto).
  assert (Hpost : ~ In (id todo) (ids post))
    by (intros H; apply Hnd, in_or_app; auto).
  assert (Hsplit : forall k resp,
            target k = Some (id todo) ->
            effect k resp (pre ++ todo :: post) =
            pre ++ effect k resp [todo] ++ post).
  { intros k resp Hk.
    change (pre ++ todo :: post) with (pre ++ [todo] ++ post).
    rewrite !effect_app by congruence.
    now rewrite (effect_absent k (id todo) resp pre),
                (effect_absent k (id todo) resp post). }
  assert (Htoggle :
            effect (AwaitToggle (id todo)) (RespOk p) (pre ++ todo :: post) =
            pre ++ mkTodo (id todo) (body todo) true :: post)
    by (rewrite Hsplit by reflexivity; unfold effect; cbn;
        now rewrite str_eqb_refl).
  repeat apply conj.
  - exact Htoggle.
  - rewrite Hsplit by reflexivity; unfold effect; cbn.
    now rewrite str_eqb_refl.
  - rewrite Hsplit by reflexivity; unfold effect; cbn.
    now rewrite str_eqb_refl.
  - intros Hopen; unfold completedCount.
    change (todos (toggleTodo_resume (id todo) (RespOk p)
                     (loaded (pre ++ todo :: post))))
      with (effect (AwaitToggle (id todo)) (RespOk p) (pre ++ todo :: post)).
    cbn [todos loaded]; rewrite Htoggle.
    rewrite !filter_app, !length_app; cbn; rewrite Hopen; cbn; lia.
Qed.

Lemma mutation_changes_one_place_witness :
  effect (AwaitDelete (js "2")) (RespOk eggs) [milk; eggs; rent] =
    [milk; rent] /\
  completedCount
    (toggleTodo_resume (js "2") (RespOk eggs) (loaded [milk; eggs; rent])) = 2.
Proof.
  assert (Hnd : NoDup (ids ([milk] ++ eggs :: [rent])))
    by (cbn; repeat constructor; cbn; intuition discriminate).
  destruct (mutation_changes_one_place [milk] [rent] eggs eggs (js "x") Hnd)
    as (_ & _ & Hdel & Hcount).
  split; [exact Hdel | exact (Hcount eq_refl)].
Defined.

(** ** The header *)

Lemma filter_length_perm (T : Type) (p : T -> bool) (l l' : list T) :
  Permutation l l' -> length (filter p l) = length (filter p l').
Proof.
  induction 1 as [|x l l' _ IH|x y l|l l' l'' _ IH1 _ IH2]; cbn; auto.
  - destruct (p x); cbn; auto.
  - destruct (p x), (p y); reflexivity.
  - congruence.
Qed.

Lemma completed_after_effect (k : Pending) (resp : Response)
  (items : list Todo) :
  let count l := length (filter (fun todo => completed todo) l) in
  match k, resp with
  | AwaitDelete id_, RespOk _ =>
      count (effect k resp items) <= count items /\
      length (effect k resp items) + length (having id_ items) = length items
  | AwaitCreate, RespOk _ =>
      count items <= count (effect k resp items) /\
      length (effect k resp items) = S (length items)
  | _, _ =>
      count items <= count (effect k resp items) /\
      length (effect k resp items) = length items
  end.
Proof.
  cbn zeta; destruct k, resp;
    unfold effect, having, with_completed, with_body; cbn; auto;
    try (split; [|now rewrite ?length_map]).
  - destruct (completed payload); cbn; lia.
  - induction items as [|todo items IH]; cbn; auto.
    destruct (str_eqb (id todo) id_), (completed todo) eqn:E; cbn;
      rewrite ?E; cbn; lia.
  - induction items as [|todo items IH]; cbn; auto.
    destruct IH as [IH1 IH2].
    destruct (str_eqb (id todo) id_), (completed todo) eqn:E; cbn;
      rewrite ?E; cbn; lia.
  - induction items as [|todo items IH]; cbn; auto.
    destruct (str_eqb (id todo) id_), (completed todo) eqn:E; cbn;
      rewrite ?E; cbn; lia.
Qed.

(** X13. The two numbers of the header, "completed of total".  The first
    never exceeds the second.  A step of the engine other than the
    successful answer to a delete never lowers the number of completed
    tasks, and changes the total only by the task that a successful
    creation brings in; the successful answer to a delete raises neither
    number. *)
Theorem header_counts (ev : Event) (st st' : State) :
  step ev st = Some st' ->
  completedCount st' <= totalCount st' /\
  (answers_delete ev st = false ->
   completedCount st <= completedCount st' /\
   totalCount st' = totalCount st + length (created ev st)) /\
  (answers_delete ev st = true ->
   completedCount st' <= completedCount st /\
   totalCount st' <= totalCount st).
Proof.
  unfold completedCount, totalCount; intros Hstep.
  split; [apply filter_length_le|].
  destruct ev; cbn [step created answers_delete] in *.
  1, 4, 5: injection Hstep as <-; cbn;
    (split; [intros _; lia | discriminate]).
  1: injection Hstep as <-; unfold createTodo; destruct (negb _); cbn;
    (split; [intros _; lia | discriminate]).
  1: injection Hstep as <-; unfold toggleTodo; destruct completed_; cbn;
    (split; [intros _; lia | discriminate]).
  - split; [intros _ | discriminate].
    cbn [length]; rewrite Nat.add_0_r.
    unfold handleDragEnd in Hstep.
    destruct (over event); [|injection Hstep as <-; lia].
    destruct (negb _); [|injection Hstep as <-; lia].
    destruct (reorder _ _ _) as [items|] eqn:Hre; [|discriminate].
    injection Hstep as <-; cbn [todos setTodos].
    pose proof (arrayMove_perm _ _ _ _ _ Hre) as Hperm.
    rewrite (filter_length_perm _ _ _ _ Hperm), (Permutation_length Hperm).
    lia.
  - destruct (nth_error (inflight st) n) as [k|]; [|discriminate].
    injection Hstep as <-; rewrite todos_resume; cbn [todos settle].
    pose proof (completed_after_effect k resp (todos st)) as H.
    destruct k, resp; cbn zeta in H; cbn [length];
      (split; [intros Hd | intros Hd]); try discriminate; lia.
Qed.

Lemma header_counts_witness :
  completedCount (loaded [milk; rent]) <= 2 /\
  1 <= completedCount (loaded [milk; rent]).
Proof.
  destruct (header_counts (Arrive 0 (RespOk milk))
              (mkState [milk; rent] [] false [PUT (js "1") (js "x")]
                       [AwaitEdit (js "1") (js "buy milk")] [] [])
              (mkState [milk; rent] [] false [PUT (js "1") (js "x")] []
                       [success "Todo updated successfully!"] [])
              eq_refl) as (Hle & Hkeep & _).
  split; [exact Hle | exact (proj1 (Hkeep eq_refl))].
Defined.

(** ** Loading the list *)

(** X14. [fetchTodos] and its answer.  The request goes out once; every
    answer ends the loading state and leaves the overlay, the draft and
    what is in flight alone.  A successful answer replaces the whole list,
    whatever it was, by the payload, and by the empty list when the payload
    is [null], without any notification; any other answer leaves the list
    as it is and fires the one error notification, with one line on the
    console. *)
Theorem fetchTodos_answer (resp : ListResponse) (pg : Page) :
  let pg' := fetchTodos_resume resp (fetchTodos pg) in
  shell pg' = shell pg ++ [GetTodos] /\
  loading pg' = false /\
  showShortcuts pg' = showShortcuts pg /\
  newTodo (engine pg') = newTodo (engine pg) /\
  creating (engine pg') = creating (engine pg) /\
  requests (engine pg') = requests (engine pg) /\
  inflight (engine pg') = inflight (engine pg) /\
  match resp with
  | ListOk data =>
      todos (engine pg') = match data with Some items => items | None => [] end
      /\ toasts (engine pg') = toasts (engine pg)
      /\ console (engine pg') = console (engine pg)
  | _ =>
      todos (engine pg') = todos (engine pg) /\
      toasts (engine pg') =
        toasts (engine pg) ++
        [mkToast (js "Error")
           (js "Failed to load todos. Please check if your backend is running.")
           (Some (js "destructive"))] /\
      length (console (engine pg')) = S (length (console (engine pg)))
  end.
Proof.
  destruct resp as [[items|]| |]; cbn; rewrite ?length_app; cbn;
    repeat split; lia.
Qed.

(** The page right after mounting: loading until the answer, then the list
    of the answer, or none when the list could not be fetched. *)
Lemma mounted_then_loaded (items : list Todo) :
  loading (fetchTodos mounted) = true /\
  engine (fetchTodos_resume (ListOk (Some items)) (fetchTodos mounted)) =
    loaded items /\
  totalCount (engine (fetchTodos_resume ListNotOk (fetchTodos mounted))) = 0.
Proof. repeat split. Qed.

(** ** The card: editor and keys *)

(** X15. The editor of a card.  It does not open on a completed task.
    On an open task it opens with the text of the task as draft; saved
    at once, it sends nothing when that text is its own trim or is blank,
    and otherwise sends the trimmed text, although nothing was typed.
    Enter is the save button; Escape and every other key send nothing. *)
Theorem editor_opens_and_saves (todo : Todo) (item : ItemState) (st : State) :
  (completed todo = true -> handleEdit todo item = item) /\
  (completed todo = false ->
   handleEdit todo item = mkItem true (body todo) /\
   (trim (body todo) = body todo \/ blank (body todo) ->
    handleSaveEdit todo editTodo (handleEdit todo item) st =
      (mkItem false (body todo), st)) /\
   (trim (body todo) <> body todo -> ~ blank (body todo) ->
    handleSaveEdit todo editTodo (handleEdit todo item) st =
      (mkItem false (body todo),
       editTodo (id todo) (trim (body todo)) st))) /\
  (forall key_,
     (key_ = js "Enter" ->
      handleKeyDown todo editTodo key_ item st =
        handleSaveEdit todo editTodo item st) /\
     (key_ <> js "Enter" ->
      snd (handleKeyDown todo editTodo key_ item st) = st)).
Proof.
  split; [|split].
  - intros Hdone; unfold handleEdit; now rewrite Hdone.
  - intros Hopen; unfold handleEdit; rewrite Hopen.
    split; [reflexivity|].
    unfold handleSaveEdit; cbn [editValue].
    pose proof (str_eqb_eq (trim (body todo)) (body todo)) as Heq.
    pose proof (truthy_false (trim (body todo))) as Hempty.
    pose proof (trim_blank (body todo)) as Hblank.
    destruct (truthy (trim (body todo)));
      destruct (str_eqb (trim (body todo)) (body todo)); cbn [andb negb];
      split; auto; intros H; try intros H'; exfalso;
      intuition congruence.
  - intros key_; unfold handleKeyDown; split.
    + intros ->; reflexivity.
    + intros Hne; apply str_eqb_neq in Hne; rewrite Hne.
      destruct (str_eqb key_ (js "Escape")); reflexivity.
Qed.

Lemma editor_opens_and_saves_witness :
  let padded := mkTodo (js "7") (js " so so ") false in
  handleSaveEdit padded editTodo (handleEdit padded (mkItem false []))
                 (loaded [padded]) =
    (mkItem false (js " so so "),
     editTodo (js "7") (js "so so") (loaded [padded])) /\
  handleSaveEdit milk editTodo (handleEdit milk (mkItem false []))
                 (loaded [milk]) =
    (mkItem false (js "buy milk"), loaded [milk]).
Proof.
  split.
  - apply (editor_opens_and_saves (mkTodo (js "7") (js " so so ") false)
             (mkItem false [])
             (loaded [mkTodo (js "7") (js " so so ") false]));
      [reflexivity | discriminate | unfold blank; cbn; discriminate].
  - apply (editor_opens_and_saves milk (mkItem false []) (loaded [milk]));
      [reflexivity | left; reflexivity].
Defined.

(** ** Keyboard shortcuts *)




(** ** Edits that come from the card *)



(** ** Drags and answers *)

Lemma findIndex_from_map (g : Todo -> Todo) (p : Todo -> bool)
  (items : list Todo) (k : Z) :
  (forall t, p (g t) = p t) ->
  findIndex_from p (map g items) k = findIndex_from p items k.
Proof.
  intros Hp; revert k; induction items as [|t items IH]; intros k; cbn; auto.
  rewrite Hp; destruct (p t); auto.
Qed.

Lemma splice_map (T : Type) (g : T -> T) (array : list T)
  (start deleteCount : Z) (items : list T) :
  splice (map g array) start deleteCount (map g items) =
  (map g (fst (splice array start deleteCount items)),
   map g (snd (splice array start deleteCount items))).
Proof.
  unfold splice; cbv zeta; cbn [fst snd].
  now rewrite length_map, !skipn_map, !firstn_map, !map_app.
Qed.

Lemma arrayMove_map (T : Type) (g : T -> T) (array : list T) (from to : Z) :
  arrayMove (map g array) from to =
  option_map (map g) (arrayMove array from to).
Proof.
  unfold arrayMove; rewrite length_map.
  pose proof (splice_map T g array from 1 []) as Hout; cbn [map] in Hout.
  rewrite Hout.
  destruct (splice array from 1 []) as [removed rest]; cbn [fst snd].
  destruct removed as [|item removed]; cbn [map option_map]; [reflexivity|].
  f_equal.
  pose proof (splice_map T g rest
                (if (to <? 0)%Z then (Z.of_nat (length array) + to)%Z else to)
                0 [item]) as Hin.
  cbn [map] in Hin; now rewrite Hin.
Qed.

(** X18. The answer to a toggle or an edit and a drag do not get in each
    other's way: the answer applied to the reordered list gives the list
    that reordering gives after the answer.  A response that arrives after
    a drag finds its task wherever the drag has put it. *)
Theorem answer_and_drag_commute (k : Pending) (resp : Response)
  (activeId overId : JSString) (items : list Todo) :
  (forall id_, k <> AwaitDelete id_) -> k <> AwaitCreate ->
  reorder activeId overId (effect k resp items) =
  option_map (effect k resp) (reorder activeId overId items).
Proof.
  intros Hdel Hcre.
  assert (Hid : option_map (fun l : list Todo => l)
                  (reorder activeId overId items)
                = reorder activeId overId items)
    by (destruct (reorder _ _ _); reflexivity).
  assert (Hmap : forall g : Todo -> Todo,
            (forall t, id (g t) = id t) ->
            reorder activeId overId (map g items) =
            option_map (map g) (reorder activeId overId items)).
  { intros g Hg; unfold reorder, findIndex.
    rewrite !findIndex_from_map by (intros t; now rewrite Hg).
    apply arrayMove_map. }
  destruct k as [|id_|id_|id_ newBody];
    [congruence | | exfalso; apply (Hdel id_); reflexivity |];
    (destruct resp; [|exact (eq_sym Hid)..]).
  - apply (Hmap (fun todo => if str_eqb (id todo) id_
                             then with_completed todo true else todo)).
    intros t; destruct (str_eqb (id t) id_); reflexivity.
  - apply (Hmap (fun todo => if str_eqb (id todo) id_
                             then with_body todo newBody else todo)).
    intros t; destruct (str_eqb (id t) id_); reflexivity.
Qed.

Lemma answer_and_drag_commute_witness :
  reorder (js "3") (js "1")
    (effect (AwaitEdit (js "3") (js "pay rent now")) (RespOk rent)
       [milk; eggs; rent]) =
  Some [mkTodo (js "3") (js "pay rent now") true; milk; eggs].
Proof.
  rewrite (answer_and_drag_commute
             (AwaitEdit (js "3") (js "pay rent now")) (RespOk rent)
             (js "3") (js "1") [milk; eggs; rent]);
    [reflexivity | discriminate | discriminate].
Defined.
